(** * onedriver: the drive item cache (package graph, type DriveItem)

    A shallow embedding of the DriveItem methods of the Go source and the
    properties of path computation, identity resolution, directory listing,
    content buffering, flush and attribute computation.

    Modelling conventions.
    - A pointer [*DriveItem] is a handle (an index) into a store of items; a
      nil pointer is [None].  Methods with a pointer receiver run in a
      state monad over the store; methods with a value receiver are
      functions of the item value they receive a copy of.
    - A run-time panic (nil dereference, slice bounds) is the outcome
      [Panics].
    - The per-item reader/writer lock is not modelled: one call-in is
      followed at a time, and what other goroutines do while the caller is
      blocked in a network call is the [others] component of the
      collaborators.
    - Go's [int], [int64] and [uint64] are unbounded integers here (a 64-bit
      platform, buffers far smaller than 2^63 bytes); [uint32] values wrap
      modulo 2^32, and the conversion of a signed time to [uint64] wraps
      modulo 2^64.
    - The logging calls only evaluate their arguments; what they print is
      not modelled. *)

From Stdlib Require Import ZArith.
From Stdlib.Strings Require Import Byte Ascii.
From stdpp Require Import base gmap strings list fin_maps.

Local Open Scope Z_scope.

(** ** Outcomes and the state monad *)

Inductive outcome (A : Type) : Type :=
| Returns (a : A)
| Panics
| OutOfFuel.
Arguments Returns {A} a.
Arguments Panics {A}.
Arguments OutOfFuel {A}.

Definition obind {A B : Type} (o : outcome A) (k : A -> outcome B) : outcome B :=
  match o with
  | Returns a => k a
  | Panics => Panics
  | OutOfFuel => OutOfFuel
  end.

(** Dereference of a pointer that may be nil. *)
Definition deref {A : Type} (p : option A) : outcome A :=
  match p with
  | Some a => Returns a
  | None => Panics
  end.

(** ** Byte slices

    A Go slice is a window on a backing array: [visible] holds the [len]
    elements of the slice, [spare] the elements of the backing array between
    [len] and [cap]. *)

Record slice : Type := mkSlice { visible : list byte; spare : list byte }.

Definition slice_len (s : slice) : nat := length (visible s).
Definition slice_cap (s : slice) : nat := length (visible s ++ spare s).

Definition nil_slice : slice := mkSlice [] [].

(** [s[:high]]: any [high] up to the capacity is allowed. *)
Definition slice_to (s : slice) (high : Z) : outcome slice :=
  if (0 <=? high) && (high <=? Z.of_nat (slice_cap s)) then
    let all := visible s ++ spare s in
    Returns (mkSlice (take (Z.to_nat high) all) (drop (Z.to_nat high) all))
  else Panics.

(** The elements of [s[low:high]]. *)
Definition slice_range (s : slice) (low high : Z) : outcome (list byte) :=
  if (0 <=? low) && (low <=? high) && (high <=? Z.of_nat (slice_cap s)) then
    Returns (take (Z.to_nat high - Z.to_nat low)%nat
                  (drop (Z.to_nat low) (visible s ++ spare s)))
  else Panics.

(** [append(s, data...)]: in place when the capacity suffices, otherwise in a
    new zeroed array whose spare room [grow cap need] is the run-time's
    choice. *)
Definition slice_append (grow : nat -> nat -> nat) (s : slice) (data : list byte) : slice :=
  if (length data <=? length (spare s))%nat then
    mkSlice (visible s ++ data) (drop (length data) (spare s))
  else
    mkSlice (visible s ++ data)
            (replicate (grow (slice_cap s) (slice_len s + length data)%nat) x00).

(** [copy(s[low:], data)]: the destination shares the backing array of [s];
    as many bytes are copied as both sides have. *)
Definition slice_copy_at (s : slice) (low : Z) (data : list byte) : outcome slice :=
  if (0 <=? low) && (low <=? Z.of_nat (slice_len s)) then
    let off := Z.to_nat low in
    let k := Nat.min (slice_len s - off) (length data) in
    Returns (mkSlice (take off (visible s) ++ take k data ++ drop (off + k) (visible s))
                     (spare s))
  else Panics.

(** ** Strings (package strings) *)

Fixpoint HasPrefix (s prefix : string) {struct prefix} : bool :=
  match prefix, s with
  | EmptyString, _ => true
  | String p prefix', String c s' => if Ascii.eqb p c then HasPrefix s' prefix' else false
  | String _ _, EmptyString => false
  end.

Fixpoint string_drop (n : nat) (s : string) : string :=
  match n, s with
  | O, _ => s
  | S n', String _ s' => string_drop n' s'
  | S _, EmptyString => EmptyString
  end.

Definition TrimPrefix (s prefix : string) : string :=
  if HasPrefix s prefix then string_drop (String.length prefix) s else s.

Fixpoint Contains (s substr : string) : bool :=
  HasPrefix s substr ||
  match s with
  | EmptyString => false
  | String _ s' => Contains s' substr
  end.

(** [strings.Replace(s, old, new, -1)] for a non-empty [old]: the
    occurrences of [old] are replaced from left to right without overlap;
    [skip] counts the characters of a matched occurrence still to pass. *)
Fixpoint Replace_from (skip : nat) (s old new : string) : string :=
  match s with
  | EmptyString => EmptyString
  | String c s' =>
      match skip with
      | S k => Replace_from k s' old new
      | O =>
          if HasPrefix s old
          then new +:+ Replace_from (String.length old - 1) s' old new
          else String c (Replace_from 0 s' old new)
      end
  end.

Definition ReplaceAll (s old new : string) : string := Replace_from 0 s old new.

(** ** Machine integers and constants *)

Definition wrap32 (z : Z) : Z := z mod 2 ^ 32.
Definition wrap64 (z : Z) : Z := z mod 2 ^ 64.

(** [fuse.S_IFDIR], [fuse.S_IFREG] (the values of package syscall on Linux)
    and the octal permission literals of the source. *)
Definition S_IFDIR : Z := 0x4000.
Definition S_IFREG : Z := 0x8000.
Definition perm_0755 : Z := 493.
Definition perm_0644 : Z := 420.

(** [fuse.Status]; [fuse.OK] is zero. *)
Definition Status : Type := Z.
Definition OK : Status := 0.

(** The text of a Go [error]. *)
Definition error : Type := string.

(** ** The data model *)

(** [Auth] is declared outside this file of the source; the methods read its
    access token only. *)
Record Auth : Type := mkAuth { AccessToken : string }.

Definition handle : Type := nat.

Record DriveItemParent : Type := mkParent {
  ParentID : string;
  ParentPath : string;
  Parentitem : option handle
}.

Record File : Type := mkFile { MimeType : string }.

(** The fields of [DriveItem] that its methods read or write.  The embedded
    [nodefs.File], the upload session, the lock and the parsing-only fields
    [Folder], [Deleted] and [ConflictBehavior] are left out. *)
Record DriveItem : Type := mkItem {
  auth : option Auth;
  data : option slice;
  hasChanges : bool;
  IDInternal : string;
  NameInternal : string;
  SizeInternal : Z;
  ModTimeInternal : option Z;
  mode : Z;
  Parent : option DriveItemParent;
  children : option (gmap string handle);
  subdir : Z;
  FileInternal : option File
}.

Definition set_data (v : option slice) (d : DriveItem) : DriveItem :=
  mkItem (auth d) v (hasChanges d) (IDInternal d) (NameInternal d) (SizeInternal d)
         (ModTimeInternal d) (mode d) (Parent d) (children d) (subdir d) (FileInternal d).
Definition set_hasChanges (v : bool) (d : DriveItem) : DriveItem :=
  mkItem (auth d) (data d) v (IDInternal d) (NameInternal d) (SizeInternal d)
         (ModTimeInternal d) (mode d) (Parent d) (children d) (subdir d) (FileInternal d).
Definition set_IDInternal (v : string) (d : DriveItem) : DriveItem :=
  mkItem (auth d) (data d) (hasChanges d) v (NameInternal d) (SizeInternal d)
         (ModTimeInternal d) (mode d) (Parent d) (children d) (subdir d) (FileInternal d).
Definition set_NameInternal (v : string) (d : DriveItem) : DriveItem :=
  mkItem (auth d) (data d) (hasChanges d) (IDInternal d) v (SizeInternal d)
         (ModTimeInternal d) (mode d) (Parent d) (children d) (subdir d) (FileInternal d).
Definition set_SizeInternal (v : Z) (d : DriveItem) : DriveItem :=
  mkItem (auth d) (data d) (hasChanges d) (IDInternal d) (NameInternal d) v
         (ModTimeInternal d) (mode d) (Parent d) (children d) (subdir d) (FileInternal d).
Definition set_ModTimeInternal (v : option Z) (d : DriveItem) : DriveItem :=
  mkItem (auth d) (data d) (hasChanges d) (IDInternal d) (NameInternal d) (SizeInternal d)
         v (mode d) (Parent d) (children d) (subdir d) (FileInternal d).
Definition set_mode (v : Z) (d : DriveItem) : DriveItem :=
  mkItem (auth d) (data d) (hasChanges d) (IDInternal d) (NameInternal d) (SizeInternal d)
         (ModTimeInternal d) v (Parent d) (children d) (subdir d) (FileInternal d).
Definition set_Parent (v : option DriveItemParent) (d : DriveItem) : DriveItem :=
  mkItem (auth d) (data d) (hasChanges d) (IDInternal d) (NameInternal d) (SizeInternal d)
         (ModTimeInternal d) (mode d) v (children d) (subdir d) (FileInternal d).
Definition set_children (v : option (gmap string handle)) (d : DriveItem) : DriveItem :=
  mkItem (auth d) (data d) (hasChanges d) (IDInternal d) (NameInternal d) (SizeInternal d)
         (ModTimeInternal d) (mode d) (Parent d) v (subdir d) (FileInternal d).
Definition set_subdir (v : Z) (d : DriveItem) : DriveItem :=
  mkItem (auth d) (data d) (hasChanges d) (IDInternal d) (NameInternal d) (SizeInternal d)
         (ModTimeInternal d) (mode d) (Parent d) (children d) v (FileInternal d).

(** ** The world: the items on the heap and the calls made to collaborators *)

Inductive Call : Type :=
| Put_call (path : string) (a : Auth) (body : list byte)
| Get_call (path : string) (a : Auth)
| GetItem_call (path : string) (a : Auth)
| Upload_go (h : handle) (a : Auth) (seen : DriveItem).

Record World : Type := mkWorld { items : list DriveItem; calls : list Call }.

(** The collaborators of the item cache: the remote transport ([Put], [Get],
    [GetItem]), the JSON decoder, and what the run-time and the other
    goroutines are free to choose.  [others w] is the heap as the caller
    finds it when a network call made in world [w] returns. *)
Record Collaborators : Type := mkCollaborators {
  remote_Put : string -> Auth -> list byte -> World -> error + slice;
  remote_Get : string -> Auth -> World -> error + slice;
  remote_GetItem : string -> Auth -> World -> error + DriveItem;
  others : World -> list DriveItem;
  ChildrenPath : string -> string;
  json_Unmarshal_item : list byte -> DriveItem -> error + DriveItem;
  json_Unmarshal_children : list byte -> list (option DriveItem);
  ToLower : string -> string;
  growslice : nat -> nat -> nat;
  time_Now : Z
}.

Definition M (A : Type) : Type := World -> outcome (A * World).

Definition ret {A : Type} (a : A) : M A := fun w => Returns (a, w).

Definition bind {A B : Type} (m : M A) (k : A -> M B) : M B :=
  fun w => obind (m w) (fun aw => k (fst aw) (snd aw)).

Definition lift {A : Type} (o : outcome A) : M A :=
  fun w => obind o (fun a => Returns (a, w)).

Declare Scope go_scope.
Delimit Scope go_scope with go.
Notation "x <- m ;; k" := (bind m (fun x => k))
  (at level 100, m at next level, right associativity) : go_scope.
Notation "m ;;; k" := (bind m (fun _ => k))
  (at level 100, right associativity) : go_scope.

Local Open Scope go_scope.

(** The item a pointer into the heap leads to. *)
Definition load (h : handle) : M DriveItem :=
  fun w => obind (deref (items w !! h)) (fun d => Returns (d, w)).

(** An assignment through the pointer. *)
Definition modify (h : handle) (f : DriveItem -> DriveItem) : M unit :=
  fun w => obind (deref (items w !! h))
             (fun d => Returns (tt, mkWorld (<[h := f d]> (items w)) (calls w))).

(** A new object on the heap. *)
Definition alloc (d : DriveItem) : M handle :=
  fun w => Returns (length (items w), mkWorld (items w ++ [d]) (calls w)).

Definition record_call (c : Call) (w : World) : World :=
  mkWorld (items w) (calls w ++ [c]).

(** ** Methods with a value receiver *)

(** [func (d DriveItem) Name() string] *)
Definition Name (d : DriveItem) : string := NameInternal d.

(** [func (d DriveItem) Mode() uint32].  The receiver is a copy of the item:
    [Mode_receiver d] is that copy when the body ends, and the caller's item
    is not touched. *)
Definition Mode_receiver (d : DriveItem) : DriveItem :=
  if mode d =? 0 then
    match FileInternal d with
    | None => set_mode (Z.lor S_IFDIR perm_0755) d
    | Some _ => set_mode (Z.lor S_IFREG perm_0644) d
    end
  else d.

Definition Mode (d : DriveItem) : Z := mode (Mode_receiver d).

(** [func (d DriveItem) IsDir() bool] *)
Definition IsDir (d : DriveItem) : bool := 0 <? Z.land (Mode d) S_IFDIR.

(** [func (d DriveItem) Path() string] *)
Definition Path (d : DriveItem) : outcome string :=
  obind (deref (Parent d)) (fun p =>
    if String.eqb (ParentPath p) "" && String.eqb (Name d) "root" then Returns "/"%string
    else
      let prepath := TrimPrefix (ParentPath p +:+ "/" +:+ Name d) "/drive/root:" in
      Returns (ReplaceAll prepath "//" "/")).

(** [func (d DriveItem) NLink() uint32] *)
Definition NLink (d : DriveItem) : Z :=
  if IsDir d then wrap32 (2 + subdir d) else 1.

(** [func (d DriveItem) Size() uint64] *)
Definition Size (d : DriveItem) : Z :=
  if IsDir d then 4096 else SizeInternal d.

(** [func (d DriveItem) ModTime() uint64]: the seconds of the stored time
    since 1970, a signed number, converted to [uint64]. *)
Definition ModTime (d : DriveItem) : outcome Z :=
  obind (deref (ModTimeInternal d)) (fun unix => Returns (wrap64 unix)).

(** [func (d DriveItem) Read(buf []byte, off int64)]: the bytes of the
    returned [fuse.ReadResultData] and the status. *)
Definition Read (d : DriveItem) (buf : list byte) (off : Z) : outcome (list byte * Status) :=
  let end_ := off + Z.of_nat (length buf) in
  obind (deref (data d)) (fun content =>
    let end_ := if Z.of_nat (slice_len content) <? end_
                then Z.of_nat (slice_len content) else end_ in
    obind (Path d) (fun _ =>
      obind (slice_range content off end_) (fun bytes => Returns (bytes, OK)))).

(** [func (d DriveItem) getRoot() *DriveItem]; [fuel] bounds the number of
    turns of the loop. *)
Fixpoint getRoot_loop (fuel : nat) (heap : list DriveItem) (parent : option handle)
  : outcome handle :=
  match fuel with
  | O => OutOfFuel
  | S fuel' =>
      obind (deref parent) (fun ph =>
      obind (deref (heap !! ph)) (fun p =>
      obind (deref (Parent p)) (fun pp =>
        if String.eqb (ParentPath pp) "" then Returns ph
        else getRoot_loop fuel' heap (Parentitem pp))))
  end.

Definition getRoot (fuel : nat) (heap : list DriveItem) (d : DriveItem) : outcome handle :=
  obind (deref (Parent d)) (fun p => getRoot_loop fuel heap (Parentitem p)).

(** ** Methods with a pointer receiver *)

Section Methods.

Variable env : Collaborators.

(** The three entry points of the remote transport.  The call is recorded,
    the transport answers, and the caller resumes on the heap the other
    goroutines left. *)
Definition Put (path : string) (a : Auth) (body : list byte) : M (error + slice) :=
  fun w =>
    let w1 := record_call (Put_call path a body) w in
    Returns (remote_Put env path a body w1, mkWorld (others env w1) (calls w1)).

Definition Get (path : string) (a : Auth) : M (error + slice) :=
  fun w =>
    let w1 := record_call (Get_call path a) w in
    Returns (remote_Get env path a w1, mkWorld (others env w1) (calls w1)).

Definition GetItem (path : string) (a : Auth) : M (error + DriveItem) :=
  fun w =>
    let w1 := record_call (GetItem_call path a) w in
    Returns (remote_GetItem env path a w1, mkWorld (others env w1) (calls w1)).

(** [go d.Upload(auth)]: the upload subsystem is handed the item as it is at
    that moment. *)
Definition go_Upload (h : handle) (a : Auth) : M unit :=
  d <- load h ;;
  fun w => Returns (tt, record_call (Upload_go h a d) w).

(** [func (d *DriveItem) SetName(name string)] *)
Definition SetName (h : handle) (name : string) : M unit :=
  modify h (set_NameInternal name).

(** [func (d *DriveItem) ID(auth Auth) (string, error)] and
    [func NewDriveItem(name string, mode uint32, parent *DriveItem) *DriveItem]
    call each other; [fuel] bounds the depth of the calls.  [NewDriveItem]
    yields the new item, which its caller places. *)
Fixpoint ID (fuel : nat) (h : handle) (a : Auth) : M (string * option error) :=
  match fuel with
  | O => fun _ => OutOfFuel
  | S fuel' =>
      let NewDriveItem (name : string) (mode : Z) (parent : option handle) : M DriveItem :=
        ph <- lift (deref parent) ;;
        r <- ID fuel' ph (mkAuth "") ;;
        p <- load ph ;;
        pp <- lift (deref (Parent p)) ;;
        ret (mkItem None (Some nil_slice) false "" name 0 (Some (time_Now env)) mode
               (Some (mkParent (fst r) (ParentPath pp +:+ "/" +:+ Name p) parent))
               (Some ∅) 0 None) in
      cpy <- load h ;;
      cpyParent <- lift (deref (Parent cpy)) ;;
      let parentID := ParentID cpyParent in
      if IsDir cpy then ret (IDInternal cpy, None)
      else if String.eqb (IDInternal cpy) "" && negb (String.eqb (AccessToken a) "") then
        let uploadPath :=
          "/me/drive/items/" +:+ parentID +:+ ":/" +:+ Name cpy +:+ ":/content" in
        r <- Put uploadPath a [] ;;
        match r with
        | inl err =>
            if Contains err "nameAlreadyExists" then
              d <- load h ;;
              let id := IDInternal d in
              path <- lift (Path d) ;;
              if negb (String.eqb id "") then ret (id, None)
              else
                r2 <- GetItem path a ;;
                match r2 with
                | inr latest => ret (IDInternal latest, None)
                | inl _ => ret (""%string, Some err)
                end
            else ret (""%string, Some err)
        | inr resp =>
            unsafe <- NewDriveItem (Name cpy) perm_0644 (Parentitem cpyParent) ;;
            match json_Unmarshal_item env (visible resp) unsafe with
            | inl err => ret (""%string, Some err)
            | inr unsafe' =>
                modify h (set_IDInternal (IDInternal unsafe')) ;;;
                ret (IDInternal unsafe', None)
            end
        end
      else ret (IDInternal cpy, None)
  end.

Definition NewDriveItem (fuel : nat) (name : string) (mode : Z) (parent : option handle)
  : M DriveItem :=
  ph <- lift (deref parent) ;;
  r <- ID fuel ph (mkAuth "") ;;
  p <- load ph ;;
  pp <- lift (deref (Parent p)) ;;
  ret (mkItem None (Some nil_slice) false "" name 0 (Some (time_Now env)) mode
         (Some (mkParent (fst r) (ParentPath pp +:+ "/" +:+ Name p) parent))
         (Some ∅) 0 None).

(** The body of the loop of [GetChildren], over the decoded children. *)
Fixpoint insert_children (h : handle) (fetched : list (option DriveItem)) : M unit :=
  match fetched with
  | [] => ret tt
  | c :: rest =>
      child <- lift (deref c) ;;
      cp <- lift (deref (Parent child)) ;;
      let child := set_Parent (Some (mkParent (ParentID cp) (ParentPath cp) (Some h))) child in
      ch <- alloc child ;;
      (if IsDir child
       then modify h (fun d => set_subdir (wrap32 (subdir d + 1)) d)
       else ret tt) ;;;
      d <- load h ;;
      m <- lift (deref (children d)) ;;
      modify h (set_children (Some (<[ToLower env (Name child) := ch]> m))) ;;;
      insert_children h rest
  end.

(** [func (d *DriveItem) GetChildren(auth Auth) (map[string]*DriveItem, error)] *)
Definition GetChildren (h : handle) (a : Auth)
  : M (option (gmap string handle) * option error) :=
  d <- load h ;;
  if negb (IsDir d) || bool_decide (is_Some (children d)) then ret (children d, None)
  else
    path <- lift (Path d) ;;
    r <- Get (ChildrenPath env path) a ;;
    match r with
    | inl err => ret (None, Some err)
    | inr body =>
        let fetched := json_Unmarshal_children env (visible body) in
        modify h (set_children (Some ∅)) ;;;
        insert_children h fetched ;;;
        d <- load h ;;
        ret (children d, None)
    end.

(** [func (d *DriveItem) FetchContent(auth Auth) error] *)
Definition FetchContent (fuel : nat) (h : handle) (a : Auth) : M (option error) :=
  r <- ID fuel h a ;;
  match snd r with
  | Some err => ret (Some err)
  | None =>
      r2 <- Get ("/me/drive/items/" +:+ fst r +:+ "/content") a ;;
      match r2 with
      | inl err => ret (Some err)
      | inr body => modify h (set_data (Some body)) ;;; ret None
      end
  end.

(** [func (d *DriveItem) Write(data []byte, off int64) (uint32, fuse.Status)] *)
Definition Write (h : handle) (data_ : list byte) (off : Z) : M (Z * Status) :=
  let nWrite := Z.of_nat (length data_) in
  let offset := off in
  d <- load h ;;
  lift (Path d) ;;;
  content <- lift (deref (data d)) ;;
  content' <- lift (if SizeInternal d - 1 <? offset + nWrite
                    then obind (slice_to content offset)
                           (fun s => Returns (slice_append (growslice env) s data_))
                    else slice_copy_at content offset data_) ;;
  modify h (fun d =>
    set_hasChanges true
      (set_SizeInternal (Z.of_nat (slice_len content')) (set_data (Some content') d))) ;;;
  ret (wrap32 nWrite, OK).

(** [func (d *DriveItem) Flush() fuse.Status]; [fuel] is that of [getRoot]. *)
Definition Flush (fuel : nat) (h : handle) : M Status :=
  d <- load h ;;
  lift (Path d) ;;;
  (if hasChanges d then
     root <- (fun w => obind (getRoot fuel (items w) d) (fun r => load r w)) ;;
     a <- lift (deref (auth root)) ;;
     modify h (set_hasChanges false) ;;;
     go_Upload h a
   else ret tt) ;;;
  ret OK.

(** [func (d *DriveItem) Truncate(size uint64) fuse.Status] *)
Definition Truncate (h : handle) (size : Z) : M Status :=
  d <- load h ;;
  lift (Path d) ;;;
  content <- lift (deref (data d)) ;;
  content' <- lift (slice_to content size) ;;
  modify h (fun d =>
    set_hasChanges true (set_SizeInternal size (set_data (Some content') d))) ;;;
  ret OK.

(** [func (d *DriveItem) Chmod(perms uint32) fuse.Status] *)
Definition Chmod (h : handle) (perms : Z) : M Status :=
  d <- load h ;;
  lift (Path d) ;;;
  modify h (fun d =>
    if IsDir d then set_mode (Z.lor S_IFDIR perms) d
    else set_mode (Z.lor S_IFREG perms) d) ;;;
  ret OK.

(** [func (d *DriveItem) Utimens(atime *time.Time, mtime *time.Time) fuse.Status] *)
Definition Utimens (h : handle) (atime mtime : option Z) : M Status :=
  d <- load h ;;
  lift (Path d) ;;;
  modify h (set_ModTimeInternal mtime) ;;;
  ret OK.

End Methods.

(** A method with a value receiver called through a pointer: the receiver
    is a copy of the item the pointer leads to. *)
Definition value_call {A : Type} (f : DriveItem -> outcome A) (h : handle) : M A :=
  d <- load h ;; lift (f d).

(** ** Terms of the statements *)

(** The root item, by its parent path and its name. *)
Definition is_root_item (p : DriveItemParent) (name : string) : bool :=
  String.eqb (ParentPath p) "" && String.eqb name "root".

(** The result of [Path] as a function of the parent reference and the
    name. *)
Definition expected_path (p : DriveItemParent) (name : string) : string :=
  if is_root_item p name then "/"
  else ReplaceAll (TrimPrefix (ParentPath p +:+ "/" +:+ name) "/drive/root:") "//" "/".

(** The collapse of separators in one pass from the left: two adjacent
    slashes give one slash, and the pass goes on behind the two. *)
Fixpoint collapse_pairs (s : string) : string :=
  match s with
  | EmptyString => EmptyString
  | String c rest =>
      match rest with
      | String c2 rest2 =>
          if Ascii.eqb "/" c && Ascii.eqb "/" c2
          then String "/" (collapse_pairs rest2)
          else String c (collapse_pairs rest)
      | EmptyString => String c EmptyString
      end
  end.

(** [path] is the path of an item named [name] under the parent reference
    [p]: ["/"] for the root item; otherwise, with [rest] the parent's stored
    path, a slash and the name without the marker [/drive/root:] in front
    (once, and only where the text starts with it), [path] is [rest] with
    its pairs of slashes collapsed.  Two adjacent slashes are left in
    [path] exactly when three are adjacent in [rest]. *)
Definition recomputed (p : DriveItemParent) (name path : string) : Prop :=
  let joined := ParentPath p +:+ "/" +:+ name in
  (is_root_item p name = true -> path = "/"%string)
  /\ (is_root_item p name = false ->
      exists rest,
        (joined = "/drive/root:" +:+ rest
         \/ ((forall r, joined <> "/drive/root:" +:+ r) /\ rest = joined))
        /\ path = collapse_pairs rest
        /\ Contains path "//" = Contains rest "///"
        /\ (Contains rest "//" = false -> path = rest)).

(** The upload path of the placeholder. *)
Definition placeholder_path (p : DriveItemParent) (d : DriveItem) : string :=
  "/me/drive/items/" +:+ ParentID p +:+ ":/" +:+ Name d +:+ ":/content".

(** The directories among the decoded children. *)
Fixpoint count_dirs (fetched : list (option DriveItem)) : Z :=
  match fetched with
  | [] => 0
  | Some c :: rest => (if IsDir c then 1 else 0) + count_dirs rest
  | None :: rest => count_dirs rest
  end.

(** A decoded child that is there and has a parent reference. *)
Definition listed_ok (c : option DriveItem) : bool :=
  match c with
  | Some x => match Parent x with Some _ => true | None => false end
  | None => false
  end.

(** The listing requests among the calls made so far. *)
Fixpoint fetches (cs : list Call) : nat :=
  match cs with
  | [] => O
  | Get_call _ _ :: rest => S (fetches rest)
  | _ :: rest => fetches rest
  end.

Section Requests.

Variable env : Collaborators.

(** What [GetChildren] does with the answer to its listing request. *)
Definition after_listing (h : handle) (r : error + slice)
  : M (option (gmap string handle) * option error) :=
  match r with
  | inl err => ret (None, Some err)
  | inr body =>
      modify h (set_children (Some ∅)) ;;;
      insert_children env h (json_Unmarshal_children env (visible body)) ;;;
      d <- load h ;;
      ret (children d, None)
  end.

(** The path of the listing request of an item. *)
Definition listing_path (p : DriveItemParent) (d : DriveItem) : string :=
  ChildrenPath env (expected_path p (Name d)).

End Requests.

(** * Sample worlds *)

(** Collaborators that answer every request in the same way; [meanwhile] is
    what the other goroutines do to the heap during a network call. *)
Definition sample_env (put get : error + slice) (getitem : error + DriveItem)
    (meanwhile : list DriveItem -> list DriveItem) (listing : list (option DriveItem))
  : Collaborators :=
  mkCollaborators (fun _ _ _ _ => put) (fun _ _ _ => get) (fun _ _ _ => getitem)
                  (fun w => meanwhile (items w))
                  (fun path => path +:+ ":/children")
                  (fun _ d => inr d) (fun _ => listing) (fun s => s)
                  (fun _ _ => O) 0.

Definition token : Auth := mkAuth "secret".

(** The root of the drive, as decoded: no mode word, no child cache. *)
Definition root_item : DriveItem :=
  mkItem (Some token) None false "ROOT" "root" 0 (Some 0) 0
         (Some (mkParent "" "" None)) None 0 None.

(** A new local file under the root, as [NewDriveItem] builds it. *)
Definition report_item : DriveItem :=
  mkItem None (Some nil_slice) false "" "report.txt" 0 (Some 0) perm_0644
         (Some (mkParent "ROOT" "/root" (Some 0%nat))) (Some ∅) 0 None.

(** A listed file whose content was fetched: the listing said 100 bytes, the
    download brought two. *)
Definition listed_file : DriveItem :=
  mkItem None None false "F1" "notes.txt" 100 (Some 0) 0
         (Some (mkParent "ROOT" "/drive/root:" (Some 0%nat))) None 0
         (Some (mkFile "text/plain")).

Definition short_file : DriveItem := set_data (Some (mkSlice [x01; x02] [])) listed_file.

(** A file moved under the root by [setParent]: the stored parent path is
    the root's own path. *)
Definition moved_file : DriveItem :=
  set_Parent (Some (mkParent "ROOT" "/" (Some 0%nat))) report_item.

(** A file whose stored parent path ends in two slashes. *)
Definition slashes_file : DriveItem :=
  set_Parent (Some (mkParent "A1" "/drive/root:/a//" (Some 0%nat))) report_item.

(** A listed directory. *)
Definition listed_dir (name : string) : DriveItem :=
  mkItem None None false "D1" name 0 (Some 0) 0
         (Some (mkParent "ROOT" "/drive/root:" None)) None 0 None.

Definition sample_listing : list (option DriveItem) :=
  [Some (listed_dir "Documents"); Some listed_file; Some (listed_dir "Pictures")].

Definition world_of (heap : list DriveItem) : World := mkWorld heap [].

Definition still (heap : list DriveItem) : list DriveItem := heap.

(** The transport is down. *)
Definition env_down : Collaborators :=
  sample_env (inl "503") (inl "503") (inl "503") still [].

(** The transport lists the three children of [sample_listing]. *)
Definition env_listing : Collaborators :=
  sample_env (inl "503") (inr nil_slice) (inl "503") still sample_listing.

(** The placeholder upload meets an item of that name, and meanwhile another
    goroutine has stored the identifier on the item. *)
Definition env_race : Collaborators :=
  sample_env (inl "409 nameAlreadyExists") (inl "503") (inl "503")
             (fun heap => <[1%nat := set_IDInternal "F9" report_item]> heap) [].

(** The download of a file brings two bytes. *)
Definition env_download : Collaborators :=
  sample_env (inl "503") (inr (mkSlice [x01; x02] [])) (inl "503") still [].

(** ** The claims that fail, as they are stated *)

(** C2 as stated: for every file item. *)
Definition Write_then_Read_claim : Prop :=
  forall (env : Collaborators) (w w' : World) (h : handle) (d : DriveItem)
         (data_ : list byte) (off : Z) (r : Z * Status),
    items w !! h = Some d ->
    IsDir d = false ->
    Write env h data_ off w = Returns (r, w') ->
    exists d', items w' !! h = Some d'
               /\ forall buf, length buf = length data_ ->
                              Read d' buf off = Returns (data_, OK).

(** C9 as stated, for the separators: no two slashes are adjacent in a
    path. *)
Definition Path_collapses_claim : Prop :=
  forall (d : DriveItem) (p : DriveItemParent) (path : string),
    Parent d = Some p ->
    Path d = Returns path ->
    Contains path "//" = false.

(** C5 as stated: two calls in a row make at most one listing request. *)
Definition GetChildren_twice_claim : Prop :=
  forall (env : Collaborators) (w w' : World) (h : handle) (a : Auth) (d : DriveItem)
         (r : option (gmap string handle) * option error),
    items w !! h = Some d ->
    IsDir d = true ->
    (GetChildren env h a ;;; GetChildren env h a) w = Returns (r, w') ->
    (fetches (calls w') <= fetches (calls w) + 1)%nat.

(** A file of three bytes. *)
Definition abc_file : DriveItem :=
  set_SizeInternal 3 (set_data (Some (mkSlice [x41; x42; x43] [])) report_item).

Definition truncated_file : DriveItem :=
  set_hasChanges true
    (set_SizeInternal 1 (set_data (Some (mkSlice [x41] [x42; x43])) abc_file)).

(** The root after its three children were listed. *)
Definition listed_children : gmap string handle :=
  <["Pictures" := 3%nat]> (<["notes.txt" := 2%nat]> (<["Documents" := 1%nat]> ∅)).

Definition adopted (c : DriveItem) : DriveItem :=
  set_Parent (Some (mkParent "ROOT" "/drive/root:" (Some 0%nat))) c.

Definition listed_world : World :=
  mkWorld [set_children (Some listed_children) (set_subdir 2 root_item);
           adopted (listed_dir "Documents"); adopted listed_file;
           adopted (listed_dir "Pictures")]
          [Get_call "/:/children" token].


(** ** Further methods *)

Section MoreMethods.

Variable env : Collaborators.

(** [func (d *DriveItem) setParent(newParent *DriveItem)].  The lock of the
    item is held across the call to [newParent.ID], so the model is that of
    the code only for a new parent other than the item itself. *)
Definition setParent (fuel : nat) (h : handle) (newParent : option handle) : M unit :=
  load h ;;;
  ph <- lift (deref newParent) ;;
  r <- ID env fuel ph (mkAuth "") ;;
  np <- load ph ;;
  path <- lift (Path np) ;;
  modify h (set_Parent (Some (mkParent (fst r) path newParent))).

End MoreMethods.

(** The item [NewDriveItem] builds under the parent [pd], found at [ph],
    whose own parent reference is [ppd]. *)
Definition new_item (now : Z) (name : string) (mode_ : Z) (ph : handle) (pd : DriveItem)
    (ppd : DriveItemParent) : DriveItem :=
  mkItem None (Some nil_slice) false "" name 0 (Some now) mode_
         (Some (mkParent (IDInternal pd) (ParentPath ppd +:+ "/" +:+ Name pd) (Some ph)))
         (Some ∅) 0 None.

(** The path of the content of the item with identifier [id]. *)
Definition content_path (id : string) : string := "/me/drive/items/" +:+ id +:+ "/content".

(** The fields of [fuse.Attr] that [GetAttr] sets. *)
Record Attr : Type := mkAttr {
  Attr_Size : Z;
  Attr_Nlink : Z;
  Attr_Atime : Z;
  Attr_Mtime : Z;
  Attr_Ctime : Z;
  Attr_Mode : Z;
  Attr_Uid : Z;
  Attr_Gid : Z
}.

(** [func (d DriveItem) GetAttr(out *fuse.Attr) fuse.Status]; [uid] and
    [gid] are what [os.Getuid] and [os.Getgid] answer. *)
Definition GetAttr (uid gid : Z) (d : DriveItem) : outcome (Attr * Status) :=
  let size := Size d in
  let nlink := NLink d in
  obind (ModTime d) (fun atime =>
  obind (ModTime d) (fun mtime =>
  obind (ModTime d) (fun ctime =>
    Returns (mkAttr size nlink atime mtime ctime (Mode d) (wrap32 uid) (wrap32 gid), OK)))).

(** A listed child with its parent back-reference set, as the loop of
    [GetChildren] leaves it. *)
Definition adopt (h : handle) (c : DriveItem) : DriveItem :=
  match Parent c with
  | Some cp => set_Parent (Some (mkParent (ParentID cp) (ParentPath cp) (Some h))) c
  | None => c
  end.

(** The child map after the children [cs] were inserted in order at the
    handles from [base] on. *)
Fixpoint index_children (lower : string -> string) (base : nat) (cs : list DriveItem)
    (m : gmap string handle) : gmap string handle :=
  match cs with
  | [] => m
  | c :: rest => index_children lower (S base) rest (<[lower (Name c) := base]> m)
  end.

(** The branch of [Write] on the buffer. *)
Definition written (grow : nat -> nat -> nat) (size : Z) (content : slice)
    (data_ : list byte) (off : Z) : outcome slice :=
  if size - 1 <? off + Z.of_nat (length data_)
  then obind (slice_to content off) (fun s => Returns (slice_append grow s data_))
  else slice_copy_at content off data_.

(** An item after a [Write] or a [Truncate] that left [content] and [size]. *)
Definition stored (content : slice) (size : Z) (d : DriveItem) : DriveItem :=
  set_hasChanges true (set_SizeInternal size (set_data (Some content) d)).

(** The placeholder upload succeeds and the answer decodes to the
    identifier [NEW1]. *)
Definition env_upload : Collaborators :=
  mkCollaborators (fun _ _ _ _ => inr nil_slice) (fun _ _ _ => inl "503"%string)
                  (fun _ _ _ => inl "503"%string) (fun w => items w)
                  (fun path => path +:+ ":/children")
                  (fun _ d => inr (set_IDInternal "NEW1" d)) (fun _ => [])
                  (fun s => s) (fun _ _ => O) 0.

(** An item that is its own parent. *)
Definition lost_item : DriveItem :=
  mkItem None None false "L1" "lost" 0 (Some 0) 0
         (Some (mkParent "L1" "/lost" (Some 0%nat))) None 0 None.

(** The parent reference of the items placed under the sample root. *)
Definition under_root : DriveItemParent := mkParent "ROOT" "/root" (Some 0%nat).



(** The children of [sample_listing]. *)
Definition sample_children : list DriveItem :=
  [listed_dir "Documents"; listed_file; listed_dir "Pictures"].

(** * Package logger

    The state of the package is the level in force and what has been handed
    to [log.Printf] so far, as the text after the time stamp.  What the Go
    run-time and package [fmt] contribute are parameters: the name of a
    function, the text of [Caller(3)], [fmt.Sprintf], [fmt.Sprintln] and
    [strings.ToUpper]. *)

Module Logger.

(** [type LogLevel int] and its constants. *)
Definition LogLevel : Type := Z.
Definition FATAL : LogLevel := 0.
Definition ERROR : LogLevel := 1.
Definition WARN : LogLevel := 2.
Definition INFO : LogLevel := 3.
Definition TRACE : LogLevel := 4.

Record State : Type := mkState { currentLevel : LogLevel; printed : list string }.

(** [var currentLevel = INFO] *)
Definition initial : State := mkState INFO [].

(** A process that goes on, or one that [os.Exit] has ended. *)
Inductive run : Type :=
| Running (st : State)
| Exited (code : Z) (st : State).

(** [func SetLogLevel(level LogLevel)] *)
Definition SetLogLevel (level : LogLevel) (st : State) : State :=
  mkState level (printed st).

(** [strings.Repeat(" ", count)] *)
Fixpoint spaces (count : nat) : string :=
  match count with
  | O => EmptyString
  | S k => String " " (spaces k)
  end.

(** [func pad(text string, length int) string] *)
Definition pad (text : string) (length : Z) : string :=
  let strlen := Z.of_nat (String.length text) in
  if strlen <? length then text +:+ spaces (Z.to_nat (length - strlen)) else text.

(** The loop of [funcName]: [i] is the index of the first character of
    [fname] left to visit. *)
Fixpoint lastDot_loop (i lastDot : nat) (fname : string) : nat :=
  match fname with
  | EmptyString => lastDot
  | String c rest => lastDot_loop (S i) (if Ascii.eqb c "." then i else lastDot) rest
  end.

(** [func funcName(ptr uintptr) string], on the name [fname] that the
    run-time has for [ptr]; [Base] is [filepath.Base]. *)
Definition funcName (Base : string -> string) (fname : string) : string :=
  let lastDot := lastDot_loop 0 0 fname in
  if (lastDot =? 0)%nat then Base fname
  else string_drop (lastDot + 1) fname +:+ "()".

Section Printing.

Variable Arg : Type.
Variable arg_of_string : string -> Arg.
Variable Sprintf : string -> list Arg -> string.
Variable Sprintln : list Arg -> string.
Variable ToUpper : string -> string.
Variable caller : string.

(** [func logger(level LogLevel, format string, args ...interface{})] *)
Definition logger (level : LogLevel) (format : string) (args : list Arg) (st : State)
  : State :=
  if currentLevel st <? level then st
  else
    let prefix :=
      if level =? FATAL then "FATAL"
      else if level =? ERROR then "ERROR"
      else if level =? WARN then "WARN"
      else if level =? INFO then "INFO"
      else if level =? TRACE then "TRACE"
      else ""%string in
    let preformatted := Sprintf format args in
    mkState (currentLevel st)
            (printed st ++ ["- " +:+ pad prefix 5 +:+ " - " +:+ caller +:+ " - "
                            +:+ preformatted]).

Definition Fatalf (format : string) (args : list Arg) (st : State) : run :=
  Exited 1 (logger FATAL format args st).

Definition Fatal (args : list Arg) (st : State) : run :=
  Exited 1 (logger FATAL "%s" [arg_of_string (Sprintln args)] st).

Definition Errorf (format : string) (args : list Arg) (st : State) : State :=
  logger ERROR format args st.

Definition Error (args : list Arg) (st : State) : State :=
  logger ERROR "%s" [arg_of_string (Sprintln args)] st.

Definition Warnf (format : string) (args : list Arg) (st : State) : State :=
  logger WARN format args st.

Definition Warn (args : list Arg) (st : State) : State :=
  logger WARN "%s" [arg_of_string (Sprintln args)] st.

Definition Infof (format : string) (args : list Arg) (st : State) : State :=
  logger INFO format args st.

Definition Info (args : list Arg) (st : State) : State :=
  logger INFO "%s" [arg_of_string (Sprintln args)] st.

Definition Tracef (format : string) (args : list Arg) (st : State) : State :=
  logger TRACE format args st.

Definition Trace (args : list Arg) (st : State) : State :=
  logger TRACE "%s" [arg_of_string (Sprintln args)] st.

(** The format of the complaint of [StringToLevel]; it ends in a newline. *)
Definition unrecognized_format : string :=
  "Unrecognized log level %s, defaulting to TRACE." +:+ String (Ascii.ascii_of_nat 10) "".

(** [func StringToLevel(level string) LogLevel] *)
Definition StringToLevel (level : string) (st : State) : LogLevel * State :=
  let level := ToUpper level in
  if String.eqb level "FATAL" then (FATAL, st)
  else if String.eqb level "ERROR" then (ERROR, st)
  else if String.eqb level "WARN" then (WARN, st)
  else if String.eqb level "INFO" then (INFO, st)
  else if String.eqb level "TRACE" then (TRACE, st)
  else (TRACE, Errorf unrecognized_format [arg_of_string level] st).

End Printing.

(** The name of a level, as [logger] prints it and [StringToLevel] reads
    it. *)
Definition level_name (level : LogLevel) : string :=
  if level =? FATAL then "FATAL"
  else if level =? ERROR then "ERROR"
  else if level =? WARN then "WARN"
  else if level =? INFO then "INFO"
  else if level =? TRACE then "TRACE"
  else "".

(** The line [logger] hands to [log.Printf]. *)
Definition line (caller : string) (level : LogLevel) (message : string) : string :=
  "- " +:+ pad (level_name level) 5 +:+ " - " +:+ caller +:+ " - " +:+ message.

(** Upper case for the letters of ASCII, which is what [strings.ToUpper]
    does to a string of ASCII. *)
Definition upper_ascii (c : Ascii.ascii) : Ascii.ascii :=
  let n := Ascii.nat_of_ascii c in
  if ((97 <=? n) && (n <=? 122))%nat then Ascii.ascii_of_nat (n - 32) else c.

Fixpoint ToUpper_ascii (s : string) : string :=
  match s with
  | EmptyString => EmptyString
  | String c rest => String (upper_ascii c) (ToUpper_ascii rest)
  end.

End Logger.

(** * Properties *)

(** ** The string functions *)

Lemma HasPrefix_app (p r : string) : HasPrefix (p +:+ r) p = true.
Proof.
  induction p as [|c p IH]; simpl; [reflexivity|].
  rewrite Ascii.eqb_refl. exact IH.
Qed.

Lemma HasPrefix_inv (s p : string) :
  HasPrefix s p = true -> exists r, s = p +:+ r.
Proof.
  revert s. induction p as [|c p IH]; intros s H.
  - exists s. reflexivity.
  - destruct s as [|c' s]; simpl in H; [discriminate|].
    destruct (Ascii.eqb c c') eqn:E; [|discriminate].
    apply Ascii.eqb_eq in E. subst c'.
    destruct (IH _ H) as [r ->]. exists r. reflexivity.
Qed.

Lemma string_drop_app (p r : string) : string_drop (String.length p) (p +:+ r) = r.
Proof. induction p as [|c p IH]; simpl; [reflexivity | exact IH]. Qed.

(** [TrimPrefix] removes the prefix when it is there and changes nothing
    otherwise. *)
Lemma TrimPrefix_app (p r : string) : TrimPrefix (p +:+ r) p = r.
Proof. unfold TrimPrefix. rewrite HasPrefix_app. apply string_drop_app. Qed.

Lemma TrimPrefix_none (s p : string) : HasPrefix s p = false -> TrimPrefix s p = s.
Proof. unfold TrimPrefix. intros ->. reflexivity. Qed.

(** A string in which no two slashes are adjacent is left as it is. *)
Lemma ReplaceAll_no_double (s : string) :
  Contains s "//" = false -> ReplaceAll s "//" "/" = s.
Proof.
  unfold ReplaceAll. induction s as [|c s IH]; intros H; [reflexivity|].
  cbn [Contains] in H. apply orb_false_iff in H as [H1 H2].
  cbn [Replace_from]. rewrite H1. f_equal. apply IH. exact H2.
Qed.

(** The leftmost pair of slashes becomes one slash, and the replacement goes
    on after the pair. *)
Lemma Contains_cons (c : Ascii.ascii) (s sub : string) :
  Contains (String c s) sub = HasPrefix (String c s) sub || Contains s sub.
Proof. reflexivity. Qed.

Lemma Replace_from_cons (c : Ascii.ascii) (s old new : string) :
  Replace_from 0 (String c s) old new =
  if HasPrefix (String c s) old
  then new +:+ Replace_from (String.length old - 1) s old new
  else String c (Replace_from 0 s old new).
Proof. reflexivity. Qed.

Lemma HasPrefix_double_slash (c : Ascii.ascii) (s : string) :
  HasPrefix (String c s) "//" =
  Ascii.eqb "/"%char c &&
  match s with String c2 _ => Ascii.eqb "/"%char c2 | EmptyString => false end.
Proof.
  cbn [HasPrefix]. destruct (Ascii.eqb "/"%char c); [|reflexivity].
  destruct s as [|c2 s]; [reflexivity|]. cbn [HasPrefix andb].
  destruct (Ascii.eqb "/"%char c2); reflexivity.
Qed.

Lemma ReplaceAll_leftmost (a b : string) :
  Contains (a +:+ "/") "//" = false ->
  ReplaceAll (a +:+ "//" +:+ b) "//" "/" = a +:+ "/" +:+ ReplaceAll b "//" "/".
Proof.
  unfold ReplaceAll. induction a as [|c a IH]; intros H.
  - destruct b; reflexivity.
  - change (String c a +:+ "/") with (String c (a +:+ "/")) in H.
    rewrite Contains_cons in H. apply orb_false_iff in H as [H1 H2].
    change (String c a +:+ "//" +:+ b) with (String c (a +:+ "//" +:+ b)).
    change (String c a +:+ "/" +:+ Replace_from 0 b "//" "/")
      with (String c (a +:+ "/" +:+ Replace_from 0 b "//" "/")).
    rewrite Replace_from_cons.
    assert (HasPrefix (String c (a +:+ "//" +:+ b)) "//" = false) as ->.
    { rewrite HasPrefix_double_slash in H1 |- *.
      destruct a as [|c2 a]; [|exact H1].
      exact H1. }
    f_equal. apply IH. exact H2.
Qed.

Example ReplaceAll_triple : ReplaceAll "a///b" "//" "/" = "a//b"%string.
Proof. reflexivity. Qed.

(** [strings.Replace] with a pair of slashes and one slash is the collapse
    in one pass. *)
Lemma HasPrefix_slash_cons (c : Ascii.ascii) (s p : string) :
  HasPrefix (String c s) (String "/" p) = Ascii.eqb "/"%char c && HasPrefix s p.
Proof. cbn [HasPrefix]. destruct (Ascii.eqb "/"%char c); reflexivity. Qed.

Lemma collapse_pairs_cons (c c2 : Ascii.ascii) (s : string) :
  collapse_pairs (String c (String c2 s)) =
  if Ascii.eqb "/"%char c && Ascii.eqb "/"%char c2
  then String "/" (collapse_pairs s)
  else String c (collapse_pairs (String c2 s)).
Proof. reflexivity. Qed.

Lemma Replace_from_collapse (s : string) :
  Replace_from 0 s "//" "/" = collapse_pairs s
  /\ forall c, Replace_from 0 (String c s) "//" "/" = collapse_pairs (String c s).
Proof.
  induction s as [|c2 s [IH1 IH2]].
  - split; [reflexivity|]. intros c.
    rewrite Replace_from_cons, HasPrefix_double_slash, andb_false_r. reflexivity.
  - split; [apply IH2|]. intros c.
    rewrite Replace_from_cons, HasPrefix_double_slash, collapse_pairs_cons.
    destruct (Ascii.eqb "/"%char c && Ascii.eqb "/"%char c2).
    + change (Replace_from (String.length "//" - 1) (String c2 s) "//" "/")
        with (Replace_from 0 s "//" "/").
      rewrite IH1. reflexivity.
    + rewrite IH2. reflexivity.
Qed.

Lemma ReplaceAll_collapse (s : string) : ReplaceAll s "//" "/" = collapse_pairs s.
Proof. apply Replace_from_collapse. Qed.

Lemma collapse_pairs_head (s : string) :
  HasPrefix (collapse_pairs s) "/" = HasPrefix s "/".
Proof.
  destruct s as [|c [|c2 s]]; [reflexivity | reflexivity |].
  rewrite collapse_pairs_cons, (HasPrefix_slash_cons c).
  destruct (Ascii.eqb "/"%char c) eqn:E; cbn [andb].
  - destruct (Ascii.eqb "/"%char c2); [reflexivity|].
    rewrite HasPrefix_slash_cons, E. reflexivity.
  - rewrite HasPrefix_slash_cons, E. reflexivity.
Qed.

(** Two adjacent slashes are left exactly where three were adjacent. *)
Lemma collapse_pairs_slashes (s : string) :
  Contains (collapse_pairs s) "//" = Contains s "///"
  /\ forall c, Contains (collapse_pairs (String c s)) "//" = Contains (String c s) "///".
Proof.
  induction s as [|c2 s [IH1 IH2]].
  - split; [reflexivity|]. intros c.
    change (collapse_pairs (String c "")) with (String c "").
    rewrite !Contains_cons, !HasPrefix_slash_cons.
    destruct (Ascii.eqb "/"%char c); reflexivity.
  - split; [apply IH2|]. intros c.
    rewrite collapse_pairs_cons.
    rewrite (Contains_cons c (String c2 s)), (Contains_cons c2 s).
    rewrite (HasPrefix_slash_cons c (String c2 s)), (HasPrefix_slash_cons c2 s "/").
    rewrite (HasPrefix_slash_cons c2 s "//").
    destruct (Ascii.eqb "/"%char c) eqn:Ec; cbn [andb].
    + destruct (Ascii.eqb "/"%char c2) eqn:Ec2; cbn [andb orb].
      * rewrite Contains_cons, HasPrefix_slash_cons, collapse_pairs_head, IH1.
        change (Ascii.eqb "/"%char "/"%char) with true. cbn [andb].
        destruct (HasPrefix s "/") eqn:E1; cbn [orb]; [reflexivity|].
        destruct s as [|c3 s]; [reflexivity|].
        rewrite HasPrefix_slash_cons in E1 |- *.
        destruct (Ascii.eqb "/"%char c3); [discriminate|reflexivity].
      * rewrite Contains_cons, HasPrefix_slash_cons, Ec, collapse_pairs_head.
        rewrite HasPrefix_slash_cons, Ec2. cbn [andb orb].
        rewrite IH2, Contains_cons, HasPrefix_slash_cons, Ec2. reflexivity.
    + rewrite Contains_cons, HasPrefix_slash_cons, Ec. cbn [andb orb].
      rewrite IH2, Contains_cons, HasPrefix_slash_cons. reflexivity.
Qed.

(** ** The monad *)

Lemma bind_Returns {A B : Type} (m : M A) (k : A -> M B) (w w' : World) (a : A) :
  m w = Returns (a, w') -> bind m k w = k a w'.
Proof. unfold bind. intros ->. reflexivity. Qed.

Lemma load_Returns (w : World) (h : handle) (d : DriveItem) :
  items w !! h = Some d -> load h w = Returns (d, w).
Proof. unfold load. intros ->. reflexivity. Qed.

Lemma modify_Returns (w : World) (h : handle) (d : DriveItem) (f : DriveItem -> DriveItem) :
  items w !! h = Some d ->
  modify h f w = Returns (tt, mkWorld (<[h := f d]> (items w)) (calls w)).
Proof. unfold modify. intros ->. reflexivity. Qed.

Lemma lift_Returns {A : Type} (o : outcome A) (a : A) (w : World) :
  o = Returns a -> lift o w = Returns (a, w).
Proof. unfold lift. intros ->. reflexivity. Qed.

Lemma value_call_Returns {A : Type} (f : DriveItem -> outcome A) (w : World) (h : handle)
    (d : DriveItem) (a : A) :
  items w !! h = Some d -> f d = Returns a -> value_call f h w = Returns (a, w).
Proof.
  intros Hd Hf. unfold value_call.
  rewrite (bind_Returns _ _ _ _ _ (load_Returns _ _ _ Hd)).
  apply lift_Returns. exact Hf.
Qed.

(** ** Mode *)

Lemma Mode_eq (d : DriveItem) :
  Mode d = if mode d =? 0
           then match FileInternal d with
                | None => Z.lor S_IFDIR perm_0755
                | Some _ => Z.lor S_IFREG perm_0644
                end
           else mode d.
Proof.
  unfold Mode, Mode_receiver.
  destruct (mode d =? 0); [|reflexivity]. destruct (FileInternal d); reflexivity.
Qed.

Lemma Mode_ext (d1 d2 : DriveItem) :
  mode d1 = mode d2 -> FileInternal d1 = FileInternal d2 -> Mode d1 = Mode d2.
Proof. intros Hm Hf. rewrite !Mode_eq, Hm, Hf. reflexivity. Qed.

Lemma IsDir_ext (d1 d2 : DriveItem) :
  mode d1 = mode d2 -> FileInternal d1 = FileInternal d2 -> IsDir d1 = IsDir d2.
Proof. intros Hm Hf. unfold IsDir. rewrite (Mode_ext d1 d2 Hm Hf). reflexivity. Qed.

(** ** Path *)

Lemma Path_eq (d : DriveItem) (p : DriveItemParent) :
  Parent d = Some p -> Path d = Returns (expected_path p (Name d)).
Proof.
  intros H. unfold Path, expected_path, is_root_item. rewrite H. simpl.
  destruct (_ && _); reflexivity.
Qed.

(** The path that [Path] computes is the recomputed one. *)
Lemma expected_path_recomputed (p : DriveItemParent) (name : string) :
  recomputed p name (expected_path p name).
Proof.
  unfold recomputed, expected_path. split; intros Hroot; rewrite Hroot; [reflexivity|].
  set (joined := ParentPath p +:+ "/" +:+ name).
  assert (Hrest : forall rest, ReplaceAll rest "//" "/" = collapse_pairs rest
                    /\ Contains (ReplaceAll rest "//" "/") "//" = Contains rest "///"
                    /\ (Contains rest "//" = false -> ReplaceAll rest "//" "/" = rest)).
  { intros rest. split; [apply ReplaceAll_collapse|]. split.
    - rewrite ReplaceAll_collapse. apply collapse_pairs_slashes.
    - apply ReplaceAll_no_double. }
  destruct (HasPrefix joined "/drive/root:") eqn:Hmarker.
  - destruct (HasPrefix_inv _ _ Hmarker) as [rest Hjoined].
    exists rest. split; [left; exact Hjoined|].
    rewrite Hjoined, TrimPrefix_app. apply Hrest.
  - exists joined. split.
    + right. split; [|reflexivity]. intros r Hjoined.
      rewrite Hjoined, HasPrefix_app in Hmarker. discriminate.
    + rewrite (TrimPrefix_none _ _ Hmarker). apply Hrest.
Qed.

(** C9.  [Path()] of an item that has a parent reference returns, with the
    world as it was, a path recomputed from the parent's stored path and the
    item's name: ["/"] for the root item; otherwise the stored path, a slash
    and the name, without the marker [/drive/root:] where the text starts
    with it, and with each pair of adjacent slashes, taken in one pass from
    the left, replaced by one slash.  Two adjacent slashes are left in the
    path exactly when three are adjacent before the collapse.  A second
    call gives the same path; nothing is cached, so after [SetName] the path
    is the one recomputed from the new name. *)
Theorem Path_recomputed_from_parent_and_name
    (w : World) (h : handle) (d : DriveItem) (p : DriveItemParent) (name' : string) :
  items w !! h = Some d ->
  Parent d = Some p ->
  exists path path',
    value_call Path h w = Returns (path, w)
    /\ (value_call Path h ;;; value_call Path h) w = Returns (path, w)
    /\ recomputed p (Name d) path
    /\ (SetName h name' ;;; value_call Path h) w
       = Returns (path', mkWorld (<[h := set_NameInternal name' d]> (items w)) (calls w))
    /\ recomputed p name' path'.
Proof.
  intros Hd Hp.
  assert (H1 : value_call Path h w = Returns (expected_path p (Name d), w)).
  { apply (value_call_Returns _ _ _ d); [exact Hd | apply Path_eq; exact Hp]. }
  exists (expected_path p (Name d)), (expected_path p name').
  split; [exact H1|]. split; [|split; [|split]].
  - rewrite (bind_Returns _ _ _ _ _ H1). exact H1.
  - apply expected_path_recomputed.
  - unfold SetName. rewrite (bind_Returns _ _ _ _ _ (modify_Returns _ _ _ _ Hd)).
    apply (value_call_Returns _ _ _ (set_NameInternal name' d)).
    + simpl. apply list_lookup_insert_eq. apply lookup_lt_Some in Hd. exact Hd.
    + apply (Path_eq (set_NameInternal name' d) p). exact Hp.
  - apply expected_path_recomputed.
Qed.

(** ** Identity resolution *)

Section Identity.

Variable env : Collaborators.

(** One level of [ID], with the call to [NewDriveItem] by its name. *)
Lemma ID_unfold (fuel : nat) (h : handle) (a : Auth) :
  ID env (S fuel) h a =
  (cpy <- load h ;;
   cpyParent <- lift (deref (Parent cpy)) ;;
   let parentID := ParentID cpyParent in
   if IsDir cpy then ret (IDInternal cpy, None)
   else if String.eqb (IDInternal cpy) "" && negb (String.eqb (AccessToken a) "") then
     let uploadPath :=
       "/me/drive/items/" +:+ parentID +:+ ":/" +:+ Name cpy +:+ ":/content" in
     r <- Put env uploadPath a [] ;;
     match r with
     | inl err =>
         if Contains err "nameAlreadyExists" then
           d <- load h ;;
           let id := IDInternal d in
           path <- lift (Path d) ;;
           if negb (String.eqb id "") then ret (id, None)
           else
             r2 <- GetItem env path a ;;
             match r2 with
             | inr latest => ret (IDInternal latest, None)
             | inl _ => ret (""%string, Some err)
             end
         else ret (""%string, Some err)
     | inr resp =>
         unsafe <- NewDriveItem env fuel (Name cpy) perm_0644 (Parentitem cpyParent) ;;
         match json_Unmarshal_item env (visible resp) unsafe with
         | inl err => ret (""%string, Some err)
         | inr unsafe' =>
             modify h (set_IDInternal (IDInternal unsafe')) ;;;
             ret (IDInternal unsafe', None)
         end
     end
   else ret (IDInternal cpy, None)).
Proof. reflexivity. Qed.

(** With an empty access token [ID] answers from the item alone: the cached
    identifier, the world unchanged. *)
Lemma ID_without_token (fuel : nat) (w : World) (h : handle) (d : DriveItem)
    (p : DriveItemParent) (a : Auth) :
  items w !! h = Some d ->
  Parent d = Some p ->
  AccessToken a = ""%string ->
  ID env (S fuel) h a w = Returns ((IDInternal d, None), w).
Proof.
  intros Hd Hp Ha. rewrite ID_unfold.
  rewrite (bind_Returns _ _ _ _ _ (load_Returns _ _ _ Hd)).
  rewrite Hp. unfold lift at 1, deref, obind, bind at 1. cbn [fst snd].
  destruct (IsDir d); [reflexivity|].
  rewrite Ha. cbn [String.eqb negb]. rewrite andb_false_r. reflexivity.
Qed.

(** C10.  For a file item with no cached identifier, [ID] with an
    authentication whose access token is empty returns the empty identifier
    and no error, and leaves the world as it was: no call to the transport
    is recorded. *)
Theorem ID_empty_token_no_upload (fuel : nat) (w : World) (h : handle) (d : DriveItem)
    (p : DriveItemParent) (a : Auth) :
  items w !! h = Some d ->
  Parent d = Some p ->
  IsDir d = false ->
  IDInternal d = ""%string ->
  AccessToken a = ""%string ->
  ID env (S fuel) h a w = Returns ((""%string, None), w).
Proof.
  intros Hd Hp _ Hid Ha.
  rewrite (ID_without_token fuel w h d p a Hd Hp Ha). rewrite Hid. reflexivity.
Qed.

(** C1.  A file item without a cached identifier, a non-empty access token,
    and a placeholder upload that fails with an error whose text contains
    [nameAlreadyExists].  [d'] is the live item when the upload call
    returns.  If [d'] has an identifier by then, [ID] returns it; otherwise
    [ID] asks the transport for the item at the path of [d'] and returns the
    identifier of the item it gets; and if that request fails, [ID] returns
    the error of the upload. *)
Theorem ID_name_already_exists (fuel : nat) (w : World) (h : handle) (d d' : DriveItem)
    (p p' : DriveItemParent) (a : Auth) (err : error) :
  items w !! h = Some d ->
  Parent d = Some p ->
  IsDir d = false ->
  IDInternal d = ""%string ->
  AccessToken a <> ""%string ->
  let w1 := record_call (Put_call (placeholder_path p d) a []) w in
  let w2 := mkWorld (others env w1) (calls w1) in
  let path := expected_path p' (Name d') in
  let w3 := record_call (GetItem_call path a) w2 in
  let w4 := mkWorld (others env w3) (calls w3) in
  remote_Put env (placeholder_path p d) a [] w1 = inl err ->
  Contains err "nameAlreadyExists" = true ->
  others env w1 !! h = Some d' ->
  Parent d' = Some p' ->
  (IDInternal d' <> ""%string ->
     ID env (S fuel) h a w = Returns ((IDInternal d', None), w2))
  /\ (IDInternal d' = ""%string ->
      forall latest, remote_GetItem env path a w3 = inr latest ->
      ID env (S fuel) h a w = Returns ((IDInternal latest, None), w4))
  /\ (IDInternal d' = ""%string ->
      forall err2, remote_GetItem env path a w3 = inl err2 ->
      ID env (S fuel) h a w = Returns ((""%string, Some err), w4)).
Proof.
  intros Hd Hp Hfile Hid Ha w1 w2 path w3 w4 Hput Herr Hd' Hp'.
  assert (Hhead : ID env (S fuel) h a w =
    (path <- lift (Path d') ;;
     if negb (String.eqb (IDInternal d') "") then ret (IDInternal d', None)
     else
       r2 <- GetItem env path a ;;
       match r2 with
       | inr latest => ret (IDInternal latest, None)
       | inl _ => ret (""%string, Some err)
       end) w2).
  { rewrite ID_unfold.
    rewrite (bind_Returns _ _ _ _ _ (load_Returns _ _ _ Hd)).
    rewrite Hp. unfold lift at 1, deref, obind, bind at 1. cbn [fst snd].
    rewrite Hfile, Hid.
    assert (String.eqb (AccessToken a) "" = false) as ->
      by (apply String.eqb_neq; exact Ha).
    cbn [String.eqb negb andb].
    unfold bind at 1, Put. cbn [obind fst snd].
    change (remote_Put env _ a [] _) with (remote_Put env (placeholder_path p d) a [] w1).
    rewrite Hput, Herr.
    change (mkWorld _ _) with w2.
    rewrite (bind_Returns _ _ w2 w2 d'); [reflexivity|].
    apply load_Returns. exact Hd'. }
  rewrite Hhead.
  rewrite (bind_Returns _ _ w2 w2 path)
    by (apply lift_Returns, Path_eq; exact Hp').
  repeat split.
  - intros Hne. apply String.eqb_neq in Hne. rewrite Hne. reflexivity.
  - intros He latest Hget. rewrite He. cbn [String.eqb negb].
    unfold bind, GetItem. cbn [obind fst snd].
    change (remote_GetItem env path a _) with (remote_GetItem env path a w3).
    rewrite Hget. reflexivity.
  - intros He err2 Hget. rewrite He. cbn [String.eqb negb].
    unfold bind, GetItem. cbn [obind fst snd].
    change (remote_GetItem env path a _) with (remote_GetItem env path a w3).
    rewrite Hget. reflexivity.
Qed.

End Identity.

(** ** Content buffering *)

Lemma take_drop_written (front data_ rest : list byte) :
  take (length data_) (drop (length front) (front ++ data_ ++ rest)) = data_.
Proof.
  rewrite drop_app_length. rewrite take_app_length. reflexivity.
Qed.

Lemma slice_range_middle (s : slice) (front data_ rest : list byte) (off : Z) :
  visible s ++ spare s = front ++ data_ ++ rest ->
  off = Z.of_nat (length front) ->
  slice_range s off (off + Z.of_nat (length data_)) = Returns data_.
Proof.
  intros Hall ->. unfold slice_range, slice_cap. rewrite Hall.
  rewrite !length_app.
  assert ((0 <=? Z.of_nat (length front)) &&
          (Z.of_nat (length front) <=? Z.of_nat (length front) + Z.of_nat (length data_)) &&
          (Z.of_nat (length front) + Z.of_nat (length data_) <=?
             Z.of_nat (length front + (length data_ + length rest))) = true) as ->.
  { rewrite !andb_true_iff, !Z.leb_le. lia. }
  f_equal.
  replace (Z.to_nat (Z.of_nat (length front) + Z.of_nat (length data_))
           - Z.to_nat (Z.of_nat (length front)))%nat with (length data_) by lia.
  rewrite Nat2Z.id. apply take_drop_written.
Qed.

(** What the two branches of [Write] leave in the buffer: the written bytes
    at the offset, inside the new length. *)
Lemma written_buffer (grow : nat -> nat -> nat) (content content' : slice)
    (data_ : list byte) (off size : Z) :
  size <= Z.of_nat (slice_len content) ->
  (if size - 1 <? off + Z.of_nat (length data_)
   then obind (slice_to content off) (fun s => Returns (slice_append grow s data_))
   else slice_copy_at content off data_) = Returns content' ->
  exists front rest,
    visible content' ++ spare content' = front ++ data_ ++ rest
    /\ off = Z.of_nat (length front)
    /\ off + Z.of_nat (length data_) <= Z.of_nat (slice_len content').
Proof.
  intros Hsize H.
  destruct (size - 1 <? off + Z.of_nat (length data_)) eqn:Hbranch.
  - unfold slice_to in H.
    destruct ((0 <=? off) && (off <=? Z.of_nat (slice_cap content))) eqn:Hb;
      [|discriminate].
    apply andb_true_iff in Hb as [H0 H1]. apply Z.leb_le in H0, H1.
    cbn [obind] in H. injection H as <-.
    unfold slice_cap in H1.
    set (all := visible content ++ spare content) in *.
    assert (Hfront : length (take (Z.to_nat off) all) = Z.to_nat off)
      by (rewrite length_take; lia).
    unfold slice_append, slice_len. cbn [visible spare].
    destruct (length data_ <=? length (drop (Z.to_nat off) all))%nat;
      cbn [visible spare]; eexists (take (Z.to_nat off) all), _;
      (split; [rewrite <- !app_assoc; reflexivity|]);
      rewrite ?length_app, Hfront; lia.
  - apply Z.ltb_ge in Hbranch. unfold slice_copy_at in H.
    destruct ((0 <=? off) && (off <=? Z.of_nat (slice_len content))) eqn:Hb;
      [|discriminate].
    apply andb_true_iff in Hb as [H0 H1]. apply Z.leb_le in H0, H1.
    injection H as <-. unfold slice_len in *. cbn [visible spare].
    assert (Hmin : Nat.min (length (visible content) - Z.to_nat off) (length data_)
                   = length data_) by lia.
    rewrite Hmin, firstn_all.
    assert (Hfront : length (take (Z.to_nat off) (visible content)) = Z.to_nat off)
      by (rewrite length_take; lia).
    exists (take (Z.to_nat off) (visible content)),
           (drop (Z.to_nat off + length data_) (visible content) ++ spare content).
    split; [rewrite <- !app_assoc; reflexivity|].
    rewrite !length_app, Hfront, length_drop. lia.
Qed.

Section Buffer.

Variable env : Collaborators.

(** X27.  Where the declared size does not exceed the length of the buffer:
    when [Write(data, off)] returns, the item's size is the length of the buffer,
    the dirty flag is set, and [Read] into a buffer as long as [data] at the
    same offset returns [data], whether the bytes were written in place or
    appended. *)
Theorem Write_then_Read_returns_data
    (w w' : World) (h : handle) (d : DriveItem) (content : slice)
    (data_ : list byte) (off : Z) (r : Z * Status) :
  items w !! h = Some d ->
  data d = Some content ->
  SizeInternal d <= Z.of_nat (slice_len content) ->
  Write env h data_ off w = Returns (r, w') ->
  exists d' content',
    items w' !! h = Some d'
    /\ data d' = Some content'
    /\ SizeInternal d' = Z.of_nat (slice_len content')
    /\ hasChanges d' = true
    /\ forall buf, length buf = length data_ -> Read d' buf off = Returns (data_, OK).
Proof.
  intros Hd Hdata Hsize H.
  unfold Write in H.
  rewrite (bind_Returns _ _ _ _ _ (load_Returns _ _ _ Hd)) in H.
  destruct (Path d) as [path| |] eqn:Hpath;
    try (unfold bind, lift, obind in H; discriminate).
  rewrite (bind_Returns _ _ w w path) in H by reflexivity.
  rewrite Hdata in H.
  rewrite (bind_Returns _ _ w w content) in H by reflexivity.
  match type of H with
  | bind (lift ?branch) _ _ = _ => destruct branch as [content'| |] eqn:Hbranch
  end; try (unfold bind, lift, obind in H; discriminate).
  rewrite (bind_Returns _ _ w w content') in H by reflexivity.
  rewrite (bind_Returns _ _ _ _ _ (modify_Returns _ _ _ _ Hd)) in H.
  unfold ret in H. injection H as _ <-.
  destruct (written_buffer _ _ _ _ _ _ Hsize Hbranch) as (front & rest & Hall & Hoff & Hlen).
  eexists _, content'. split.
  { cbn [items]. apply list_lookup_insert_eq. apply lookup_lt_Some in Hd. exact Hd. }
  repeat split.
  intros buf Hbuf. unfold Read. cbn [data set_hasChanges set_SizeInternal set_data].
  rewrite Hbuf. cbn [deref obind].
  assert ((Z.of_nat (slice_len content') <? off + Z.of_nat (length data_)) = false) as ->
    by (apply Z.ltb_ge; exact Hlen).
  change (Path _) with (Path d). rewrite Hpath. cbn [obind].
  rewrite (slice_range_middle content' front data_ rest off Hall Hoff). reflexivity.
Qed.

(** [Truncate(n)] for [n] within the buffer: the size of a file item is [n]
    afterwards, a [Read] at offset [n] returns no bytes, and a [Read] at any
    offset beyond [n] panics on its slice bounds. *)
Lemma Truncate_then_Size_and_Read
    (w : World) (h : handle) (d : DriveItem) (p : DriveItemParent) (content : slice) (n : Z) :
  items w !! h = Some d ->
  Parent d = Some p ->
  data d = Some content ->
  0 <= n <= Z.of_nat (slice_len content) ->
  exists d',
    Truncate h n w = Returns (OK, mkWorld (<[h := d']> (items w)) (calls w))
    /\ hasChanges d' = true
    /\ (IsDir d = false -> Size d' = n)
    /\ (forall buf, Read d' buf n = Returns ([], OK))
    /\ (forall buf off, n < off -> Read d' buf off = Panics).
Proof.
  intros Hd Hp Hdata Hn.
  assert (Hto : slice_to content n =
                Returns (mkSlice (take (Z.to_nat n) (visible content ++ spare content))
                                 (drop (Z.to_nat n) (visible content ++ spare content)))).
  { unfold slice_to, slice_cap, slice_len in *. rewrite length_app.
    assert ((0 <=? n) &&
            (n <=? Z.of_nat (length (visible content) + length (spare content))) = true)
      as -> by (rewrite andb_true_iff, !Z.leb_le; lia).
    reflexivity. }
  set (content' := mkSlice (take (Z.to_nat n) (visible content ++ spare content))
                           (drop (Z.to_nat n) (visible content ++ spare content))) in *.
  set (d' := set_hasChanges true (set_SizeInternal n (set_data (Some content') d))).
  assert (Hlen : Z.of_nat (slice_len content') = n).
  { unfold slice_len in *. cbn [content' visible]. rewrite length_take, length_app. lia. }
  assert (Hcap : slice_cap content' = slice_cap content).
  { unfold slice_cap. cbn [content' visible spare]. rewrite take_drop. reflexivity. }
  assert (Hpath : Path d' = Returns (expected_path p (Name d)))
    by (apply (Path_eq d' p); exact Hp).
  exists d'. split; [|split; [reflexivity|split; [|split]]].
  - unfold Truncate.
    rewrite (bind_Returns _ _ _ _ _ (load_Returns _ _ _ Hd)).
    rewrite (Path_eq d p Hp), Hdata.
    rewrite (bind_Returns _ _ w w (expected_path p (Name d))) by reflexivity.
    rewrite (bind_Returns _ _ w w content) by reflexivity.
    rewrite Hto.
    rewrite (bind_Returns _ _ w w content') by reflexivity.
    rewrite (bind_Returns _ _ _ _ _ (modify_Returns _ _ _ _ Hd)).
    reflexivity.
  - intros Hfile. unfold Size.
    rewrite (IsDir_ext d' d eq_refl eq_refl), Hfile. reflexivity.
  - intros buf. unfold Read. cbn [d' data set_hasChanges set_SizeInternal set_data].
    cbn [deref obind]. rewrite Hpath. cbn [obind]. rewrite Hlen.
    assert ((if n <? n + Z.of_nat (length buf) then n else n + Z.of_nat (length buf)) = n)
      as -> by (destruct (Z.ltb_spec n (n + Z.of_nat (length buf))); lia).
    unfold slice_range. rewrite Hcap.
    assert ((0 <=? n) && (n <=? n) && (n <=? Z.of_nat (slice_cap content)) = true) as ->.
    { unfold slice_cap, slice_len in *. rewrite length_app.
      rewrite !andb_true_iff, !Z.leb_le. lia. }
    rewrite Nat.sub_diag. reflexivity.
  - intros buf off Hoff. unfold Read.
    cbn [d' data set_hasChanges set_SizeInternal set_data].
    cbn [deref obind]. rewrite Hpath. cbn [obind]. rewrite Hlen.
    assert ((n <? off + Z.of_nat (length buf)) = true) as ->
      by (apply Z.ltb_lt; lia).
    unfold slice_range.
    assert ((off <=? n) = false) as -> by (apply Z.leb_gt; lia).
    rewrite andb_false_r. reflexivity.
Qed.

End Buffer.

(** ** Flush *)

(** More fuel does not change a root that was found. *)
Lemma getRoot_loop_more_fuel (heap : list DriveItem) (r : handle) (fuel fuel' : nat)
    (parent : option handle) :
  getRoot_loop fuel heap parent = Returns r ->
  (fuel <= fuel')%nat ->
  getRoot_loop fuel' heap parent = Returns r.
Proof.
  revert fuel' parent. induction fuel as [|fuel IH]; intros fuel' parent H Hle.
  - discriminate.
  - destruct fuel' as [|fuel']; [lia|].
    cbn [getRoot_loop] in H |- *.
    destruct parent as [ph|]; [|discriminate]. cbn [deref obind] in H |- *.
    destruct (heap !! ph) as [q|]; [|discriminate]. cbn [deref obind] in H |- *.
    destruct (Parent q) as [pp|]; [|discriminate]. cbn [deref obind] in H |- *.
    destruct (String.eqb (ParentPath pp) ""); [exact H|].
    apply IH; [exact H | lia].
Qed.

(** The root that [getRoot] returns is an item whose parent path is empty. *)
Lemma getRoot_loop_is_root (heap : list DriveItem) (r : handle) (fuel : nat)
    (parent : option handle) :
  getRoot_loop fuel heap parent = Returns r ->
  exists root pp, heap !! r = Some root /\ Parent root = Some pp /\ ParentPath pp = ""%string.
Proof.
  revert parent. induction fuel as [|fuel IH]; intros parent H; [discriminate|].
  cbn [getRoot_loop] in H.
  destruct parent as [ph|]; [|discriminate]. cbn [deref obind] in H.
  destruct (heap !! ph) as [q|] eqn:Hq; [|discriminate]. cbn [deref obind] in H.
  destruct (Parent q) as [pp|] eqn:Hpp; [|discriminate]. cbn [deref obind] in H.
  destruct (String.eqb (ParentPath pp) "") eqn:E.
  - injection H as <-. apply String.eqb_eq in E. eauto.
  - eapply IH. exact H.
Qed.


(** ** Directory listing *)

Lemma fetches_app (cs1 cs2 : list Call) : fetches (cs1 ++ cs2) = (fetches cs1 + fetches cs2)%nat.
Proof.
  induction cs1 as [|c cs1 IH]; [reflexivity|].
  destruct c; cbn [fetches app]; rewrite IH; reflexivity.
Qed.

Lemma count_dirs_nonneg (fetched : list (option DriveItem)) : 0 <= count_dirs fetched.
Proof.
  induction fetched as [|[c|] rest IH]; cbn [count_dirs]; [lia| |exact IH].
  destruct (IsDir c); lia.
Qed.

Lemma wrap32_add_l (a b : Z) : wrap32 (wrap32 a + b) = wrap32 (a + b).
Proof. unfold wrap32. apply Zplus_mod_idemp_l. Qed.

Lemma wrap32_add_r (a b : Z) : wrap32 (a + wrap32 b) = wrap32 (a + b).
Proof. unfold wrap32. apply Zplus_mod_idemp_r. Qed.

Lemma wrap32_small (a : Z) : 0 <= a < 2 ^ 32 -> wrap32 a = a.
Proof. unfold wrap32. apply Z.mod_small. Qed.

Section Listing.

Variable env : Collaborators.

(** One turn of the loop of [GetChildren], for a child that is there. *)
Lemma insert_children_cons (h : handle) (c : DriveItem) (cp : DriveItemParent)
    (rest : list (option DriveItem)) (w : World) (d : DriveItem) (m : gmap string handle) :
  items w !! h = Some d ->
  children d = Some m ->
  Parent c = Some cp ->
  let child := set_Parent (Some (mkParent (ParentID cp) (ParentPath cp) (Some h))) c in
  let d1 := set_children (Some (<[ToLower env (Name child) := length (items w)]> m))
              (if IsDir c then set_subdir (wrap32 (subdir d + 1)) d else d) in
  insert_children env h (Some c :: rest) w =
  insert_children env h rest (mkWorld (<[h := d1]> (items w ++ [child])) (calls w)).
Proof.
  intros Hd Hm Hcp child d1.
  assert (Hlen : (h < length (items w))%nat) by (apply lookup_lt_Some in Hd; exact Hd).
  cbn [insert_children]. cbn [deref].
  rewrite (bind_Returns _ _ w w c) by reflexivity.
  rewrite Hcp. rewrite (bind_Returns _ _ w w cp) by reflexivity.
  fold child.
  rewrite (bind_Returns _ _ w (mkWorld (items w ++ [child]) (calls w)) (length (items w)))
    by reflexivity.
  assert (Hdir : IsDir child = IsDir c) by (apply IsDir_ext; reflexivity).
  rewrite Hdir.
  set (w1 := mkWorld (items w ++ [child]) (calls w)).
  assert (Hd1 : items w1 !! h = Some d).
  { cbn [w1 items]. rewrite lookup_app_l by exact Hlen. exact Hd. }
  set (dA := if IsDir c then set_subdir (wrap32 (subdir d + 1)) d else d).
  assert (HA : (if IsDir c
                then modify h (fun d => set_subdir (wrap32 (subdir d + 1)) d)
                else ret tt) w1
               = Returns (tt, mkWorld (<[h := dA]> (items w1)) (calls w1))).
  { unfold dA. destruct (IsDir c).
    - exact (modify_Returns w1 h d
               (fun d => set_subdir (wrap32 (subdir d + 1)) d) Hd1).
    - unfold ret. rewrite list_insert_id by exact Hd1. reflexivity. }
  rewrite (bind_Returns _ _ _ _ _ HA).
  set (w2 := mkWorld (<[h := dA]> (items w1)) (calls w1)).
  assert (Hlen1 : (h < length (items w1))%nat) by (apply lookup_lt_Some in Hd1; exact Hd1).
  assert (Hd2 : items w2 !! h = Some dA)
    by (cbn [w2 items]; apply list_lookup_insert_eq; exact Hlen1).
  rewrite (bind_Returns _ _ _ _ _ (load_Returns _ _ _ Hd2)).
  assert (HmA : children dA = Some m) by (unfold dA; destruct (IsDir c); exact Hm).
  rewrite HmA. rewrite (bind_Returns _ _ w2 w2 m) by reflexivity.
  rewrite (bind_Returns _ _ _ _ _ (modify_Returns _ _ _ _ Hd2)).
  cbn [w2 w1 items calls]. rewrite list_insert_insert_eq. reflexivity.
Qed.

(** The loop, when it returns, has touched the children and the counter of
    the item, and nothing else of it; the counter has gone up by the number
    of directories among the children, modulo 2^32. *)
Lemma insert_children_inv (h : handle) (fetched : list (option DriveItem)) :
  forall (w w' : World) (d : DriveItem) (m : gmap string handle),
    items w !! h = Some d ->
    children d = Some m ->
    insert_children env h fetched w = Returns (tt, w') ->
    exists m' s',
      items w' !! h = Some (set_children (Some m') (set_subdir s' d))
      /\ calls w' = calls w
      /\ wrap32 s' = wrap32 (subdir d + count_dirs fetched).
Proof.
  induction fetched as [|c rest IH]; intros w w' d m Hd Hm H.
  - cbn [insert_children] in H. injection H as <-.
    exists m, (subdir d). split; [|split].
    + rewrite Hd. f_equal. destruct d. cbn in Hm |- *. rewrite Hm. reflexivity.
    + reflexivity.
    + cbn [count_dirs]. rewrite Z.add_0_r. reflexivity.
  - destruct c as [c|]; [|discriminate].
    destruct (Parent c) as [cp|] eqn:Hcp.
    2:{ cbn [insert_children deref] in H.
        rewrite (bind_Returns _ _ w w c) in H by reflexivity.
        rewrite Hcp in H. discriminate. }
    rewrite (insert_children_cons h c cp rest w d m Hd Hm Hcp) in H.
    assert (Hlen : (h < length (items w))%nat) by (apply lookup_lt_Some in Hd; exact Hd).
    match type of H with
    | insert_children _ _ _ (mkWorld (<[h := ?d1]> ?l) ?cs) = _ =>
        destruct (IH (mkWorld (<[h := d1]> l) cs) w' d1
                     (<[ToLower env (Name c) := length (items w)]> m))
          as (m' & s' & Hit & Hcalls & Hs);
          [ cbn [items]; apply list_lookup_insert_eq; rewrite length_app; lia
          | reflexivity
          | exact H
          | ]
    end.
    exists m', s'. split; [|split].
    + rewrite Hit. destruct (IsDir c); reflexivity.
    + exact Hcalls.
    + rewrite Hs. cbn [count_dirs]. destruct (IsDir c); cbn [set_children set_subdir subdir].
      * rewrite wrap32_add_l. f_equal. lia.
      * f_equal.
Qed.

(** The loop returns when every decoded child is there and has a parent
    reference. *)
Lemma insert_children_total (h : handle) (fetched : list (option DriveItem)) :
  forall (w : World) (d : DriveItem) (m : gmap string handle),
    items w !! h = Some d ->
    children d = Some m ->
    forallb listed_ok fetched = true ->
    exists w', insert_children env h fetched w = Returns (tt, w').
Proof.
  induction fetched as [|c rest IH]; intros w d m Hd Hm Hok.
  - exists w. reflexivity.
  - cbn [forallb] in Hok. apply andb_true_iff in Hok as [Hc Hrest].
    destruct c as [c|]; [|discriminate].
    cbn [listed_ok] in Hc. destruct (Parent c) as [cp|] eqn:Hcp; [|discriminate].
    rewrite (insert_children_cons h c cp rest w d m Hd Hm Hcp).
    assert (Hlen : (h < length (items w))%nat) by (apply lookup_lt_Some in Hd; exact Hd).
    eapply (IH _ (set_children (Some _) _) _); [|reflexivity|exact Hrest].
    cbn [items]. apply list_lookup_insert_eq. rewrite length_app. lia.
Qed.

(** With a child cache that is not nil, or on a file, no request is made. *)
Lemma GetChildren_cached (w : World) (h : handle) (a : Auth) (d : DriveItem) :
  items w !! h = Some d ->
  negb (IsDir d) || bool_decide (is_Some (children d)) = true ->
  GetChildren env h a w = Returns ((children d, None), w).
Proof.
  intros Hd Hc. unfold GetChildren.
  rewrite (bind_Returns _ _ _ _ _ (load_Returns _ _ _ Hd)). rewrite Hc. reflexivity.
Qed.

(** On a directory whose child cache is nil the listing request is made, and
    the call goes on with its answer on the heap the others left. *)
Lemma GetChildren_fetch (w : World) (h : handle) (a : Auth) (d : DriveItem)
    (p : DriveItemParent) :
  items w !! h = Some d ->
  IsDir d = true ->
  children d = None ->
  Parent d = Some p ->
  let w1 := record_call (Get_call (listing_path env p d) a) w in
  GetChildren env h a w =
  after_listing env h (remote_Get env (listing_path env p d) a w1)
                (mkWorld (others env w1) (calls w1)).
Proof.
  intros Hd Hdir Hnil Hp w1. unfold GetChildren.
  rewrite (bind_Returns _ _ _ _ _ (load_Returns _ _ _ Hd)).
  rewrite Hdir, Hnil. cbn [negb orb].
  rewrite bool_decide_eq_false_2 by (intros [? ?]; discriminate).
  rewrite (Path_eq d p Hp).
  rewrite (bind_Returns _ _ w w (expected_path p (Name d))) by reflexivity.
  unfold bind at 1, Get. cbn [obind fst snd].
  unfold after_listing, listing_path.
  destruct (remote_Get env _ a _); reflexivity.
Qed.

(** C6.  A directory whose child cache is nil, and a listing request that
    fails with [err]: [GetChildren] returns a nil map and [err]; it has made
    the one request and written nothing to the heap, so the item is as the
    other goroutines left it, its child cache and its counter of
    subdirectories included; and when the item is still as it was, the next
    call makes the request again and goes on with the new answer. *)
Theorem GetChildren_failure_leaves_cache_nil (w : World) (h : handle) (a : Auth)
    (d : DriveItem) (p : DriveItemParent) (err : error) :
  items w !! h = Some d ->
  IsDir d = true ->
  children d = None ->
  Parent d = Some p ->
  let w1 := record_call (Get_call (listing_path env p d) a) w in
  let w2 := mkWorld (others env w1) (calls w1) in
  let w3 := record_call (Get_call (listing_path env p d) a) w2 in
  let w4 := mkWorld (others env w3) (calls w3) in
  remote_Get env (listing_path env p d) a w1 = inl err ->
  GetChildren env h a w = Returns ((None, Some err), w2)
  /\ items w2 = others env w1
  /\ calls w2 = calls w ++ [Get_call (listing_path env p d) a]
  /\ (others env w1 !! h = Some d ->
      items w2 !! h = Some d
      /\ GetChildren env h a w2 =
         after_listing env h (remote_Get env (listing_path env p d) a w3) w4).
Proof.
  intros Hd Hdir Hnil Hp w1 w2 w3 w4 Hget.
  split; [|split; [reflexivity|split; [reflexivity|]]].
  - rewrite (GetChildren_fetch w h a d p Hd Hdir Hnil Hp).
    fold w1. rewrite Hget. reflexivity.
  - intros Hstill. split; [exact Hstill|].
    apply (GetChildren_fetch w2 h a d p Hstill Hdir Hnil Hp).
Qed.

(** A listing that was fetched without error leaves a child cache that is
    not nil. *)
Lemma after_listing_populates (w w' : World) (h : handle) (r : error + slice)
    (m : option (gmap string handle)) :
  after_listing env h r w = Returns ((m, None), w') ->
  exists d', items w' !! h = Some d' /\ children d' = m /\ is_Some m
             /\ calls w' = calls w.
Proof.
  intros H. destruct r as [err|body]; [discriminate|].
  cbn [after_listing] in H.
  destruct (items w !! h) as [d1|] eqn:Hd1; [|unfold bind, modify in H; rewrite Hd1 in H; discriminate].
  rewrite (bind_Returns _ _ _ _ _ (modify_Returns _ _ _ _ Hd1)) in H.
  set (w1 := mkWorld (<[h := set_children (Some ∅) d1]> (items w)) (calls w)) in *.
  assert (H1 : items w1 !! h = Some (set_children (Some ∅) d1)).
  { cbn [w1 items]. apply list_lookup_insert_eq. apply lookup_lt_Some in Hd1. exact Hd1. }
  destruct (insert_children env h (json_Unmarshal_children env (visible body)) w1)
    as [[[] w3]| |] eqn:Hloop; try (unfold bind in H; rewrite Hloop in H; discriminate).
  rewrite (bind_Returns _ _ _ _ _ Hloop) in H.
  destruct (insert_children_inv h _ _ _ _ _ H1 eq_refl Hloop) as (m' & s' & Hit & Hcalls & _).
  rewrite (bind_Returns _ _ _ _ _ (load_Returns _ _ _ Hit)) in H.
  unfold ret in H. cbn [children set_children] in H. injection H as <- <-.
  eexists. split; [exact Hit|]. split; [reflexivity|]. split; [eauto|exact Hcalls].
Qed.

(** C5, as the code has it.  When [GetChildren] on a directory returns
    without error, the map it returns is not nil, even for an empty listing,
    and a second call returns the same map and changes nothing: it makes no
    request.  A request is made only when the child cache was nil, so the two
    calls make at most one. *)
Theorem GetChildren_twice_fetches_once (w w1 : World) (h : handle) (a : Auth)
    (d : DriveItem) (m : option (gmap string handle)) :
  items w !! h = Some d ->
  IsDir d = true ->
  GetChildren env h a w = Returns ((m, None), w1) ->
  is_Some m
  /\ GetChildren env h a w1 = Returns ((m, None), w1)
  /\ (fetches (calls w1) <= fetches (calls w) + 1)%nat
  /\ (is_Some (children d) -> w1 = w)
  /\ (children d = None -> fetches (calls w1) = (fetches (calls w) + 1)%nat).
Proof.
  intros Hd Hdir H.
  destruct (children d) as [m0|] eqn:Hm.
  - assert (Hc : negb (IsDir d) || bool_decide (is_Some (children d)) = true).
    { rewrite Hm, bool_decide_eq_true_2 by eauto. apply orb_true_r. }
    pose proof (GetChildren_cached w h a d Hd Hc) as Hfirst.
    rewrite H, Hm in Hfirst. injection Hfirst as -> ->.
    split; [eauto|]. split; [rewrite <- Hm; apply GetChildren_cached; assumption|].
    split; [lia|]. split; [reflexivity|discriminate].
  - destruct (Parent d) as [p|] eqn:Hp.
    2:{ unfold GetChildren in H.
        rewrite (bind_Returns _ _ _ _ _ (load_Returns _ _ _ Hd)) in H.
        rewrite Hdir, Hm in H. cbn [negb orb] in H.
        rewrite bool_decide_eq_false_2 in H by (intros [? ?]; discriminate).
        unfold Path in H. rewrite Hp in H. discriminate. }
    rewrite (GetChildren_fetch w h a d p Hd Hdir Hm Hp) in H.
    destruct (after_listing_populates _ _ _ _ _ H) as (d' & Hd' & Hm' & Hsome & Hcalls).
    assert (Hcount : fetches (calls w1) = (fetches (calls w) + 1)%nat).
    { rewrite Hcalls. cbn [calls record_call]. rewrite fetches_app. reflexivity. }
    split; [exact Hsome|]. split; [|split; [lia|split; [intros [? ?]; discriminate|]]].
    + rewrite <- Hm'. apply GetChildren_cached; [exact Hd'|].
      rewrite Hm', bool_decide_eq_true_2 by exact Hsome. apply orb_true_r.
    + intros _. exact Hcount.
Qed.

(** C8.  [NLink()] is 1 for a file and 2 plus the counter of subdirectories,
    modulo 2^32, for a directory.  When [GetChildren] lists a directory whose
    counter is zero, and the count fits in 32 bits, the call returns and
    [NLink()] of the item is then 2 plus the number of directories among the
    listed children. *)
Theorem NLink_counts_listed_directories (w : World) (h : handle) (a : Auth)
    (d d1 : DriveItem) (p : DriveItemParent) (body : slice) :
  items w !! h = Some d ->
  IsDir d = true ->
  children d = None ->
  Parent d = Some p ->
  let w1 := record_call (Get_call (listing_path env p d) a) w in
  let fetched := json_Unmarshal_children env (visible body) in
  remote_Get env (listing_path env p d) a w1 = inr body ->
  others env w1 !! h = Some d1 ->
  IsDir d1 = true ->
  subdir d1 = 0 ->
  forallb listed_ok fetched = true ->
  2 + count_dirs fetched < 2 ^ 32 ->
  (exists m w2 d2,
     GetChildren env h a w = Returns ((Some m, None), w2)
     /\ items w2 !! h = Some d2
     /\ IsDir d2 = true
     /\ NLink d2 = 2 + count_dirs fetched)
  /\ (forall f, IsDir f = true -> NLink f = wrap32 (2 + subdir f))
  /\ (forall f, IsDir f = false -> NLink f = 1).
Proof.
  intros Hd Hdir Hnil Hp w1 fetched Hget Hd1 Hdir1 Hsub Hok Hfit.
  split; [|split; intros f Hf; unfold NLink; rewrite Hf; reflexivity].
  rewrite (GetChildren_fetch w h a d p Hd Hdir Hnil Hp).
  fold w1. rewrite Hget. cbn [after_listing]. fold fetched.
  set (w2 := mkWorld (others env w1) (calls w1)).
  rewrite (bind_Returns _ _ _ _ _ (modify_Returns w2 h d1 _ Hd1)).
  set (w3 := mkWorld (<[h := set_children (Some ∅) d1]> (items w2)) (calls w2)).
  assert (H3 : items w3 !! h = Some (set_children (Some ∅) d1)).
  { cbn [w3 items]. apply list_lookup_insert_eq. apply lookup_lt_Some in Hd1. exact Hd1. }
  destruct (insert_children_total h fetched w3 _ ∅ H3 eq_refl Hok) as [w4 Hloop].
  destruct (insert_children_inv h fetched w3 w4 _ ∅ H3 eq_refl Hloop)
    as (m' & s' & Hit & _ & Hs).
  rewrite (bind_Returns _ _ _ _ _ Hloop).
  rewrite (bind_Returns _ _ _ _ _ (load_Returns _ _ _ Hit)).
  eexists m', w4, _. split; [reflexivity|]. split; [exact Hit|].
  assert (Hdir2 : IsDir (set_children (Some m') (set_subdir s' (set_children (Some ∅) d1)))
                  = true)
    by (rewrite <- Hdir1; apply IsDir_ext; reflexivity).
  split; [exact Hdir2|].
  unfold NLink. rewrite Hdir2. cbn [subdir set_children set_subdir].
  rewrite <- wrap32_add_r, Hs. cbn [subdir set_children]. rewrite Hsub.
  rewrite wrap32_add_r. apply wrap32_small.
  pose proof (count_dirs_nonneg fetched). lia.
Qed.

End Listing.

(** * Instances *)

(** A listed file under the marker, also renamed: the marker is taken off.
    A file moved under the root: the pair of slashes gives one.  The root
    item. *)
Lemma Path_recomputed_witness :
  value_call Path 1%nat (world_of [root_item; listed_file])
  = Returns ("/notes.txt"%string, world_of [root_item; listed_file])
  /\ (value_call Path 1%nat ;;; value_call Path 1%nat) (world_of [root_item; listed_file])
     = Returns ("/notes.txt"%string, world_of [root_item; listed_file])
  /\ (SetName 1%nat "final.txt" ;;; value_call Path 1%nat) (world_of [root_item; listed_file])
     = Returns ("/final.txt"%string,
                world_of [root_item; set_NameInternal "final.txt" listed_file])
  /\ value_call Path 1%nat (world_of [root_item; moved_file])
     = Returns ("/report.txt"%string, world_of [root_item; moved_file])
  /\ value_call Path 0%nat (world_of [root_item; moved_file])
     = Returns ("/"%string, world_of [root_item; moved_file]).
Proof.
  destruct (Path_recomputed_from_parent_and_name
              (world_of [root_item; listed_file]) 1%nat listed_file
              (mkParent "ROOT" "/drive/root:" (Some 0%nat)) "final.txt" eq_refl eq_refl)
    as (path & path' & H1 & H2 & [_ Hpath] & H3 & [_ Hpath']).
  destruct (Hpath eq_refl) as (rest & [Hjoined | [Hno _]] & -> & _);
    [|destruct (Hno "/notes.txt"%string eq_refl)].
  destruct (Hpath' eq_refl) as (rest' & [Hjoined' | [Hno' _]] & -> & _);
    [|destruct (Hno' "/final.txt"%string eq_refl)].
  vm_compute in Hjoined, Hjoined'. injection Hjoined as <-. injection Hjoined' as <-.
  destruct (Path_recomputed_from_parent_and_name
              (world_of [root_item; moved_file]) 1%nat moved_file
              (mkParent "ROOT" "/" (Some 0%nat)) "" eq_refl eq_refl)
    as (moved & _ & H4 & _ & [_ Hmoved] & _).
  destruct (Hmoved eq_refl) as (rest & [Hjoined | [_ ->]] & -> & _);
    [vm_compute in Hjoined; discriminate Hjoined|].
  destruct (Path_recomputed_from_parent_and_name
              (world_of [root_item; moved_file]) 0%nat root_item
              (mkParent "" "" None) "" eq_refl eq_refl)
    as (top & _ & H5 & _ & [Htop _] & _).
  rewrite (Htop eq_refl) in H5.
  split; [exact H1|]. split; [exact H2|]. split; [exact H3|]. split; [exact H4 | exact H5].
Defined.

(** The marker is taken off and a pair of slashes gives one. *)
Example Path_of_moved_file : Path moved_file = Returns "/report.txt"%string.
Proof. reflexivity. Qed.

(** Of three adjacent slashes two are left. *)
Example Path_of_slashes_file : Path slashes_file = Returns "/a//report.txt"%string.
Proof. reflexivity. Qed.

Lemma Path_collapses_counterexample : ~ Path_collapses_claim.
Proof.
  intros claim.
  pose proof (claim slashes_file (mkParent "A1" "/drive/root:/a//" (Some 0%nat))
                "/a//report.txt"%string eq_refl eq_refl) as H.
  discriminate H.
Qed.

Example Path_of_listed_file : Path listed_file = Returns "/notes.txt"%string.
Proof. reflexivity. Qed.

Example Path_of_root : Path root_item = Returns "/"%string.
Proof. reflexivity. Qed.

(** The new file has no identifier; without a token none is asked for. *)
Lemma ID_empty_token_witness :
  ID env_down 1 1%nat (mkAuth "") (world_of [root_item; report_item])
  = Returns ((""%string, None), world_of [root_item; report_item]).
Proof.
  apply (ID_empty_token_no_upload env_down 0 (world_of [root_item; report_item]) 1%nat
           report_item (mkParent "ROOT" "/root" (Some 0%nat)) (mkAuth ""));
    reflexivity.
Defined.

(** The upload of the placeholder meets the name, and by then another
    goroutine has stored the identifier [F9]. *)
Lemma ID_name_already_exists_witness :
  ID env_race 1 1%nat token (world_of [root_item; report_item])
  = Returns (("F9"%string, None),
             mkWorld [root_item; set_IDInternal "F9" report_item]
                     [Put_call "/me/drive/items/ROOT:/report.txt:/content" token []]).
Proof.
  refine (proj1 (ID_name_already_exists env_race 0 (world_of [root_item; report_item]) 1%nat
                   report_item (set_IDInternal "F9" report_item)
                   (mkParent "ROOT" "/root" (Some 0%nat))
                   (mkParent "ROOT" "/root" (Some 0%nat))
                   token "409 nameAlreadyExists" _ _ _ _ _ _ _ _ _) _);
    try reflexivity; discriminate.
Defined.

(** The other two ways out of the branch: the transport knows the item, or
    it fails too. *)
Example ID_adopts_remote_identifier :
  ID (sample_env (inl "409 nameAlreadyExists") (inl "503") (inr listed_file) still [])
     1 1%nat token (world_of [root_item; report_item])
  = Returns (("F1"%string, None),
             mkWorld [root_item; report_item]
                     [Put_call "/me/drive/items/ROOT:/report.txt:/content" token [];
                      GetItem_call "/root/report.txt" token]).
Proof. reflexivity. Qed.

Example ID_returns_upload_error :
  ID (sample_env (inl "409 nameAlreadyExists") (inl "503") (inl "404 itemNotFound") still [])
     1 1%nat token (world_of [root_item; report_item])
  = Returns ((""%string, Some "409 nameAlreadyExists"%string),
             mkWorld [root_item; report_item]
                     [Put_call "/me/drive/items/ROOT:/report.txt:/content" token [];
                      GetItem_call "/root/report.txt" token]).
Proof. reflexivity. Qed.

(** Three bytes written to the new file and read back. *)
Lemma Write_then_Read_witness :
  exists d' content',
    items (mkWorld [root_item;
                    set_hasChanges true
                      (set_SizeInternal 3 (set_data (Some (mkSlice [x41; x42; x43] []))
                                                    report_item))] [])
      !! 1%nat = Some d'
    /\ data d' = Some content'
    /\ SizeInternal d' = Z.of_nat (slice_len content')
    /\ hasChanges d' = true
    /\ forall buf, length buf = length [x41; x42; x43] ->
                   Read d' buf 0 = Returns ([x41; x42; x43], OK).
Proof.
  apply (Write_then_Read_returns_data env_down (world_of [root_item; report_item]) _ 1%nat
           report_item nil_slice [x41; x42; x43] 0 (3, OK)); reflexivity.
Defined.

(** The scenario of the specification: three bytes written to a new file. *)
Example Write_report_scenario :
  exists w',
    Write env_down 1%nat [x41; x42; x43] 0 (world_of [root_item; report_item])
    = Returns ((3, OK), w')
    /\ (Size <$> items w' !! 1%nat) = Some 3
    /\ (d ← items w' !! 1%nat; Some (Read d [x00; x00; x00] 0))
       = Some (Returns ([x41; x42; x43], OK)).
Proof. eexists. split; [reflexivity|]. split; reflexivity. Qed.

(** A listed file whose download is shorter than its listed size. *)
Example FetchContent_shorter_than_listed :
  FetchContent env_download 1 1%nat token (world_of [root_item; listed_file])
  = Returns (None, mkWorld [root_item; short_file]
                           [Get_call "/me/drive/items/F1/content" token]).
Proof. reflexivity. Qed.

(** C2 on a listed file whose download is shorter than its listed size (100
    bytes listed, a buffer of two, as [FetchContent] leaves it).
    [Write] of three bytes at offset 1 compares the end of the write with the
    listed size, takes the branch that writes in place, and [copy] moves the
    one byte the buffer has room for; [Write] returns 3 and [OK] all the
    same, and the [Read] of three bytes at offset 1 that follows returns one
    byte. *)
Theorem Write_in_place_copies_short :
  FetchContent env_download 1 1%nat token (world_of [root_item; listed_file])
  = Returns (None, mkWorld [root_item; short_file]
                           [Get_call "/me/drive/items/F1/content" token])
  /\ SizeInternal short_file = 100
  /\ data short_file = Some (mkSlice [x01; x02] [])
  /\ Write env_download 1%nat [x09; x09; x09] 1 (world_of [root_item; short_file])
     = Returns ((3, OK),
                world_of [root_item; stored (mkSlice [x01; x09] []) 2 short_file])
  /\ Read (stored (mkSlice [x01; x09] []) 2 short_file) [x00; x00; x00] 1
     = Returns ([x09], OK).
Proof. repeat split. Qed.

(** The same input against the statement for every file item. *)
Lemma Write_then_Read_counterexample : ~ Write_then_Read_claim.
Proof.
  intros claim.
  destruct (claim env_down (world_of [root_item; short_file])
              (mkWorld [root_item;
                        set_hasChanges true
                          (set_SizeInternal 2
                             (set_data (Some (mkSlice [x01; x09] [])) short_file))] [])
              1%nat short_file [x09; x09; x09] 1 (3, OK)
              eq_refl eq_refl eq_refl) as (d' & Hd' & Hread).
  injection Hd' as <-.
  specialize (Hread [x00; x00; x00] eq_refl).
  discriminate Hread.
Qed.

(** C4 on a file of three bytes cut to one: the size is 1 and a [Read] at
    offset 1 returns no bytes, but a [Read] at offset 2, beyond the new end,
    panics: the end of the range is clamped to the length and the start is
    not. *)
Theorem Read_beyond_truncated_end_panics :
  Truncate 1%nat 1 (world_of [root_item; abc_file])
  = Returns (OK, world_of [root_item; truncated_file])
  /\ Size truncated_file = 1
  /\ Read truncated_file [x00] 1 = Returns ([], OK)
  /\ Read truncated_file [x00] 2 = Panics.
Proof. repeat split. Qed.

(** C3 on the root as decoded: [Mode()] answers with the mode of a directory
    and the stored mode word is zero as before, so every call classifies
    anew; with a file facet on the same item the next call answers with the
    mode of a file. *)
Theorem Mode_not_stored_on_item :
  value_call (fun d => Returns (Mode d)) 0%nat (world_of [root_item; report_item])
  = Returns (Z.lor S_IFDIR perm_0755, world_of [root_item; report_item])
  /\ mode root_item = 0
  /\ mode (Mode_receiver root_item) = Z.lor S_IFDIR perm_0755
  /\ Mode (mkItem (auth root_item) (data root_item) (hasChanges root_item)
                  (IDInternal root_item) (NameInternal root_item) (SizeInternal root_item)
                  (ModTimeInternal root_item) (mode root_item) (Parent root_item)
                  (children root_item) (subdir root_item) (Some (mkFile "text/plain")))
     = Z.lor S_IFREG perm_0644.
Proof. repeat split. Qed.

(** [Mode()] through a pointer never changes the heap. *)
Lemma Mode_call_leaves_heap (w : World) (h : handle) (d : DriveItem) :
  items w !! h = Some d ->
  value_call (fun d => Returns (Mode d)) h w = Returns (Mode d, w).
Proof. intros Hd. apply (value_call_Returns _ w h d); [exact Hd | reflexivity]. Qed.

(** [Chmod] replaces the mode word by the type bit and the given bits. *)
Example Chmod_changes_Mode :
  (Chmod 0%nat 448 ;;; value_call (fun d => Returns (Mode d)) 0%nat)
    (world_of [root_item; report_item])
  = Returns (Z.lor S_IFDIR 448,
             world_of [set_mode (Z.lor S_IFDIR 448) root_item; report_item]).
Proof. reflexivity. Qed.

(** With the transport down, two calls on the root make two requests. *)
Lemma GetChildren_twice_counterexample : ~ GetChildren_twice_claim.
Proof.
  intros claim.
  pose proof (claim env_down (world_of [root_item])
                (mkWorld [root_item]
                         [Get_call "/:/children" token; Get_call "/:/children" token])
                0%nat token root_item (None, Some "503"%string)
                eq_refl eq_refl eq_refl) as H.
  cbn in H. lia.
Qed.

(** The root, with the transport down. *)
Lemma GetChildren_failure_witness :
  GetChildren env_down 0%nat token (world_of [root_item])
  = Returns ((None, Some "503"%string),
             mkWorld [root_item] [Get_call "/:/children" token])
  /\ [root_item] = [root_item]
  /\ [Get_call "/:/children" token] = [] ++ [Get_call "/:/children" token]
  /\ ([root_item] !! 0%nat = Some root_item ->
      [root_item] !! 0%nat = Some root_item
      /\ GetChildren env_down 0%nat token (mkWorld [root_item] [Get_call "/:/children" token])
         = after_listing env_down 0%nat (inl "503"%string)
             (mkWorld [root_item]
                      [Get_call "/:/children" token; Get_call "/:/children" token])).
Proof.
  apply (GetChildren_failure_leaves_cache_nil env_down (world_of [root_item]) 0%nat token
           root_item (mkParent "" "" None) "503"); reflexivity.
Defined.


(** Without an authentication context on the root the dereference in
    [Flush] panics, before the flag is cleared and before any hand-off. *)
Example Flush_root_without_auth_panics :
  Flush 1 1%nat
    (world_of [mkItem None None false "ROOT" "root" 0 (Some 0) 0
                      (Some (mkParent "" "" None)) None 0 None;
               set_hasChanges true abc_file])
  = Panics.
Proof. reflexivity. Qed.

Example Flush_dirty_file :
  Flush 1 1%nat (world_of [root_item; set_hasChanges true abc_file])
  = Returns (OK, mkWorld [root_item; abc_file] [Upload_go 1%nat token abc_file]).
Proof. reflexivity. Qed.

Example Flush_clean_file :
  Flush 1 1%nat (world_of [root_item; abc_file])
  = Returns (OK, world_of [root_item; abc_file]).
Proof. reflexivity. Qed.

(** The root, listed with two directories and a file. *)
Lemma NLink_witness :
  (exists m w2 d2,
     GetChildren env_listing 0%nat token (world_of [root_item]) = Returns ((Some m, None), w2)
     /\ items w2 !! 0%nat = Some d2
     /\ IsDir d2 = true
     /\ NLink d2 = 2 + count_dirs sample_listing)
  /\ (forall f, IsDir f = true -> NLink f = wrap32 (2 + subdir f))
  /\ (forall f, IsDir f = false -> NLink f = 1).
Proof.
  apply (NLink_counts_listed_directories env_listing (world_of [root_item]) 0%nat token
           root_item root_item (mkParent "" "" None) nil_slice); reflexivity.
Defined.

Example GetChildren_lists_root :
  GetChildren env_listing 0%nat token (world_of [root_item])
  = Returns ((Some listed_children, None), listed_world).
Proof. vm_compute. reflexivity. Qed.

Example NLink_of_listed_root :
  NLink (set_children (Some listed_children) (set_subdir 2 root_item)) = 4.
Proof. reflexivity. Qed.

(** The root after a listing that succeeded: the second call. *)
Lemma GetChildren_twice_witness :
  is_Some (Some listed_children)
  /\ GetChildren env_listing 0%nat token listed_world
     = Returns ((Some listed_children, None), listed_world)
  /\ (fetches (calls listed_world) <= fetches (calls (world_of [root_item])) + 1)%nat
  /\ (is_Some (children root_item) -> listed_world = world_of [root_item])
  /\ (children root_item = None ->
      fetches (calls listed_world) = (fetches (calls (world_of [root_item])) + 1)%nat).
Proof.
  apply (GetChildren_twice_fetches_once env_listing (world_of [root_item]) listed_world
           0%nat token root_item (Some listed_children));
    [reflexivity | reflexivity | vm_compute; reflexivity].
Defined.

(** An empty listing leaves an empty map, which is not nil, and the second
    call makes no request. *)
Example GetChildren_empty_listing :
  (GetChildren (sample_env (inl "503") (inr nil_slice) (inl "503") still []) 0%nat token ;;;
   GetChildren (sample_env (inl "503") (inr nil_slice) (inl "503") still []) 0%nat token)
    (world_of [root_item])
  = Returns ((Some ∅, None),
             mkWorld [set_children (Some ∅) root_item] [Get_call "/:/children" token]).
Proof. vm_compute. reflexivity. Qed.

(** * Further properties *)

(** ** The buffer *)

Lemma bind_Panics {A B : Type} (m : M A) (k : A -> M B) (w : World) :
  m w = Panics -> bind m k w = Panics.
Proof. unfold bind. intros ->. reflexivity. Qed.

(** [Write] on an item that has a parent reference and a buffer is its
    branch on the buffer, stored on the item. *)
Lemma Write_eq (env : Collaborators) (w : World) (h : handle) (d : DriveItem)
    (p : DriveItemParent) (content : slice) (data_ : list byte) (off : Z) :
  items w !! h = Some d ->
  Parent d = Some p ->
  data d = Some content ->
  Write env h data_ off w =
  obind (written (growslice env) (SizeInternal d) content data_ off) (fun content' =>
    Returns ((wrap32 (Z.of_nat (length data_)), OK),
             mkWorld (<[h := stored content' (Z.of_nat (slice_len content')) d]> (items w))
                     (calls w))).
Proof.
  intros Hd Hp Hdata. unfold Write.
  rewrite (bind_Returns _ _ _ _ _ (load_Returns _ _ _ Hd)).
  rewrite (Path_eq d p Hp).
  rewrite (bind_Returns _ _ w w (expected_path p (Name d))) by reflexivity.
  rewrite Hdata. rewrite (bind_Returns _ _ w w content) by reflexivity.
  fold (written (growslice env) (SizeInternal d) content data_ off).
  destruct (written (growslice env) (SizeInternal d) content data_ off) as [c'| |] eqn:Hb;
    cbn [obind]; try reflexivity.
  rewrite (bind_Returns _ _ w w c') by reflexivity.
  rewrite (bind_Returns _ _ _ _ _ (modify_Returns _ _ _ _ Hd)).
  reflexivity.
Qed.

(** [Truncate] on such an item is the reslice, stored on the item. *)
Lemma Truncate_eq (w : World) (h : handle) (d : DriveItem) (p : DriveItemParent)
    (content : slice) (size : Z) :
  items w !! h = Some d ->
  Parent d = Some p ->
  data d = Some content ->
  Truncate h size w =
  obind (slice_to content size) (fun content' =>
    Returns (OK, mkWorld (<[h := stored content' size d]> (items w)) (calls w))).
Proof.
  intros Hd Hp Hdata. unfold Truncate.
  rewrite (bind_Returns _ _ _ _ _ (load_Returns _ _ _ Hd)).
  rewrite (Path_eq d p Hp).
  rewrite (bind_Returns _ _ w w (expected_path p (Name d))) by reflexivity.
  rewrite Hdata. rewrite (bind_Returns _ _ w w content) by reflexivity.
  destruct (slice_to content size) as [c'| |] eqn:Hb; cbn [obind]; try reflexivity.
  rewrite (bind_Returns _ _ w w c') by reflexivity.
  rewrite (bind_Returns _ _ _ _ _ (modify_Returns _ _ _ _ Hd)).
  reflexivity.
Qed.

Lemma slice_to_within (content : slice) (size : Z) :
  0 <= size <= Z.of_nat (slice_cap content) ->
  slice_to content size =
  Returns (mkSlice (take (Z.to_nat size) (visible content ++ spare content))
                   (drop (Z.to_nat size) (visible content ++ spare content))).
Proof.
  intros H. unfold slice_to.
  assert ((0 <=? size) && (size <=? Z.of_nat (slice_cap content)) = true) as ->
    by (rewrite andb_true_iff, !Z.leb_le; lia).
  reflexivity.
Qed.

Lemma slice_to_beyond (content : slice) (size : Z) :
  size < 0 \/ Z.of_nat (slice_cap content) < size ->
  slice_to content size = Panics.
Proof.
  intros H. unfold slice_to.
  assert ((0 <=? size) && (size <=? Z.of_nat (slice_cap content)) = false) as ->
    by (rewrite andb_false_iff, !Z.leb_gt; lia).
  reflexivity.
Qed.

(** The bytes a consistent buffer holds after a [Write] inside it or at its
    end. *)
Lemma written_consistent (grow : nat -> nat -> nat) (content : slice)
    (data_ : list byte) (off : Z) :
  0 <= off <= Z.of_nat (slice_len content) ->
  exists content',
    written grow (Z.of_nat (slice_len content)) content data_ off = Returns content'
    /\ visible content' =
       take (Z.to_nat off) (visible content) ++ data_
       ++ drop (Z.to_nat off + length data_) (visible content).
Proof.
  intros Hoff. unfold written, slice_len in *.
  destruct (Z.of_nat (length (visible content)) - 1 <? off + Z.of_nat (length data_))
    eqn:Hbranch.
  - apply Z.ltb_lt in Hbranch.
    rewrite slice_to_within by (unfold slice_cap; rewrite length_app; lia).
    cbn [obind]. eexists. split; [reflexivity|].
    rewrite take_app_le by lia.
    rewrite (drop_ge (visible content)) by lia. rewrite app_nil_r.
    unfold slice_append. cbn [visible spare].
    destruct (_ <=? _)%nat; reflexivity.
  - apply Z.ltb_ge in Hbranch. unfold slice_copy_at, slice_len.
    assert ((0 <=? off) && (off <=? Z.of_nat (length (visible content))) = true) as ->
      by (rewrite andb_true_iff, !Z.leb_le; lia).
    eexists. split; [reflexivity|]. cbn [visible].
    rewrite Nat.min_r by lia. rewrite firstn_all. reflexivity.
Qed.

(** X1.  On an item whose declared size is the length of its buffer, with an
    offset inside the buffer or at its end, [Write(data, off)] returns the
    number of bytes of [data] (as a uint32) and [OK]; the buffer then holds
    the old bytes before [off], [data], and the old bytes from
    [off + len(data)] on.  Nothing else of the world changes. *)
Theorem Write_replaces_the_range (env : Collaborators) (w : World) (h : handle)
    (d : DriveItem) (p : DriveItemParent) (content : slice) (data_ : list byte) (off : Z) :
  items w !! h = Some d ->
  Parent d = Some p ->
  data d = Some content ->
  SizeInternal d = Z.of_nat (slice_len content) ->
  0 <= off <= Z.of_nat (slice_len content) ->
  exists content',
    Write env h data_ off w =
    Returns ((wrap32 (Z.of_nat (length data_)), OK),
             mkWorld (<[h := stored content' (Z.of_nat (slice_len content')) d]> (items w))
                     (calls w))
    /\ visible content' =
       take (Z.to_nat off) (visible content) ++ data_
       ++ drop (Z.to_nat off + length data_) (visible content)
    /\ slice_len content' = Nat.max (slice_len content) (Z.to_nat off + length data_).
Proof.
  intros Hd Hp Hdata Hsize Hoff.
  destruct (written_consistent (growslice env) content data_ off Hoff) as (c' & Hw & Hv).
  exists c'. split; [|split; [exact Hv|]].
  - rewrite (Write_eq env w h d p content data_ off Hd Hp Hdata), Hsize, Hw. reflexivity.
  - unfold slice_len in *. rewrite Hv, !length_app, length_take, length_drop. lia.
Qed.

(** X2.  [Write] checks no bounds: a negative offset, or an offset beyond the
    capacity of the buffer, panics, whatever the item's declared size. *)
Theorem Write_out_of_range_panics (env : Collaborators) (w : World) (h : handle)
    (d : DriveItem) (content : slice) (data_ : list byte) (off : Z) :
  items w !! h = Some d ->
  data d = Some content ->
  off < 0 \/ Z.of_nat (slice_cap content) < off ->
  Write env h data_ off w = Panics.
Proof.
  intros Hd Hdata Hoff.
  destruct (Parent d) as [p|] eqn:Hp.
  - rewrite (Write_eq env w h d p content data_ off Hd Hp Hdata).
    unfold written.
    destruct (_ <? _).
    + rewrite slice_to_beyond by exact Hoff. reflexivity.
    + unfold slice_copy_at.
      assert ((0 <=? off) && (off <=? Z.of_nat (slice_len content)) = false) as ->.
      { rewrite andb_false_iff, !Z.leb_gt. unfold slice_cap, slice_len in *.
        rewrite length_app in Hoff. lia. }
      reflexivity.
  - unfold Write. rewrite (bind_Returns _ _ _ _ _ (load_Returns _ _ _ Hd)).
    apply bind_Panics. unfold lift, Path. rewrite Hp. reflexivity.
Qed.

(** X3.  Whenever [Write] returns, it reports all of [data] as written, has
    made no call to a collaborator, has changed no other item, and has left
    the item dirty with a declared size equal to the length of its buffer. *)
Theorem Write_leaves_size_in_step (env : Collaborators) (w w' : World) (h : handle)
    (d : DriveItem) (data_ : list byte) (off : Z) (r : Z * Status) :
  items w !! h = Some d ->
  Write env h data_ off w = Returns (r, w') ->
  r = (wrap32 (Z.of_nat (length data_)), OK)
  /\ calls w' = calls w
  /\ (forall i, i <> h -> items w' !! i = items w !! i)
  /\ exists d' content',
       items w' !! h = Some d'
       /\ data d' = Some content'
       /\ SizeInternal d' = Z.of_nat (slice_len content')
       /\ hasChanges d' = true.
Proof.
  intros Hd H.
  destruct (Parent d) as [p|] eqn:Hp.
  2:{ unfold Write in H. rewrite (bind_Returns _ _ _ _ _ (load_Returns _ _ _ Hd)) in H.
      rewrite bind_Panics in H; [discriminate|].
      unfold lift, Path. rewrite Hp. reflexivity. }
  destruct (data d) as [content|] eqn:Hdata.
  2:{ unfold Write in H. rewrite (bind_Returns _ _ _ _ _ (load_Returns _ _ _ Hd)) in H.
      rewrite (Path_eq d p Hp) in H.
      rewrite (bind_Returns _ _ w w (expected_path p (Name d))) in H by reflexivity.
      rewrite Hdata in H. discriminate. }
  rewrite (Write_eq env w h d p content data_ off Hd Hp Hdata) in H.
  destruct (written _ _ _ _ _) as [c'| |]; try discriminate.
  cbn [obind] in H. injection H as <- <-.
  split; [reflexivity|]. split; [reflexivity|]. split.
  - intros i Hi. cbn [items]. apply list_lookup_insert_ne. congruence.
  - exists (stored c' (Z.of_nat (slice_len c')) d), c'.
    split; [|repeat split].
    cbn [items]. apply list_lookup_insert_eq. apply lookup_lt_Some in Hd. exact Hd.
Qed.

(** X4.  [Read] at an offset inside the buffer or at its end returns the
    bytes of the buffer from the offset on, as many as the caller's buffer is
    long or as there are; what the caller's buffer holds plays no part. *)
Theorem Read_returns_the_range (d : DriveItem) (p : DriveItemParent) (content : slice)
    (buf : list byte) (off : Z) :
  Parent d = Some p ->
  data d = Some content ->
  0 <= off <= Z.of_nat (slice_len content) ->
  Read d buf off = Returns (take (length buf) (drop (Z.to_nat off) (visible content)), OK).
Proof.
  intros Hp Hdata Hoff. unfold Read. rewrite Hdata. cbn [deref obind].
  rewrite (Path_eq d p Hp). cbn [obind].
  set (end_ := if Z.of_nat (slice_len content) <? off + Z.of_nat (length buf)
               then Z.of_nat (slice_len content) else off + Z.of_nat (length buf)).
  assert (Hend : off <= end_ <= Z.of_nat (slice_len content)).
  { unfold end_. destruct (Z.ltb_spec (Z.of_nat (slice_len content))
                                     (off + Z.of_nat (length buf))); lia. }
  unfold slice_range, slice_cap, slice_len in *. rewrite length_app.
  assert ((0 <=? off) && (off <=? end_) &&
          (end_ <=? Z.of_nat (length (visible content) + length (spare content))) = true)
    as -> by (rewrite !andb_true_iff, !Z.leb_le; lia).
  cbn [obind]. do 2 f_equal.
  rewrite drop_app_le by lia.
  rewrite take_app_le by (rewrite length_drop; lia).
  unfold end_.
  destruct (Z.ltb_spec (Z.of_nat (length (visible content)))
                       (off + Z.of_nat (length buf))).
  - rewrite !take_ge; [reflexivity | rewrite length_drop; lia | rewrite length_drop; lia].
  - f_equal. lia.
Qed.

(** X5.  [Read] checks no bounds either: a negative offset, or an offset
    beyond the length of the buffer, panics. *)
Theorem Read_out_of_range_panics (d : DriveItem) (content : slice) (buf : list byte)
    (off : Z) :
  data d = Some content ->
  off < 0 \/ Z.of_nat (slice_len content) < off ->
  Read d buf off = Panics.
Proof.
  intros Hdata Hoff. unfold Read. rewrite Hdata. cbn [deref obind].
  destruct (Parent d) as [p|] eqn:Hp; [|unfold Path; rewrite Hp; reflexivity].
  rewrite (Path_eq d p Hp). cbn [obind].
  set (end_ := if Z.of_nat (slice_len content) <? off + Z.of_nat (length buf)
               then Z.of_nat (slice_len content) else off + Z.of_nat (length buf)).
  assert (Hend : off < 0 \/ end_ < off).
  { unfold end_. destruct (Z.ltb_spec (Z.of_nat (slice_len content))
                                     (off + Z.of_nat (length buf))); lia. }
  unfold slice_range.
  assert ((0 <=? off) && (off <=? end_) = false) as ->
    by (rewrite andb_false_iff, !Z.leb_gt; lia).
  reflexivity.
Qed.

(** X6.  [Truncate] reslices the buffer and does not clear it: after
    [Truncate(n)] and then [Truncate(m)] with [n <= m] within the old length,
    the buffer holds the first [m] bytes it held before, so the bytes cut off
    by the first call are back; the declared size is [m] and the item is
    dirty. *)
Theorem Truncate_then_regrow_restores (w : World) (h : handle) (d : DriveItem)
    (p : DriveItemParent) (content : slice) (n m : Z) :
  items w !! h = Some d ->
  Parent d = Some p ->
  data d = Some content ->
  0 <= n <= m ->
  m <= Z.of_nat (slice_len content) ->
  exists content',
    (Truncate h n ;;; Truncate h m) w =
    Returns (OK, mkWorld (<[h := stored content' m d]> (items w)) (calls w))
    /\ visible content' = take (Z.to_nat m) (visible content)
    /\ Z.of_nat (slice_len content') = m.
Proof.
  intros Hd Hp Hdata Hn Hm.
  assert (Hlen : (h < length (items w))%nat) by (apply lookup_lt_Some in Hd; exact Hd).
  set (all := visible content ++ spare content).
  assert (Hcap : Z.of_nat (slice_len content) <= Z.of_nat (length all)).
  { unfold all, slice_len. rewrite length_app. lia. }
  set (c1 := mkSlice (take (Z.to_nat n) all) (drop (Z.to_nat n) all)).
  set (c2 := mkSlice (take (Z.to_nat m) all) (drop (Z.to_nat m) all)).
  assert (H1 : Truncate h n w =
               Returns (OK, mkWorld (<[h := stored c1 n d]> (items w)) (calls w))).
  { rewrite (Truncate_eq w h d p content n Hd Hp Hdata).
    rewrite slice_to_within by (unfold slice_cap; fold all; lia). reflexivity. }
  assert (H2 : Truncate h m (mkWorld (<[h := stored c1 n d]> (items w)) (calls w)) =
               Returns (OK, mkWorld (<[h := stored c2 m d]> (items w)) (calls w))).
  { rewrite (Truncate_eq _ h (stored c1 n d) p c1 m);
      [|cbn [items]; apply list_lookup_insert_eq; exact Hlen|exact Hp|reflexivity].
    rewrite slice_to_within.
    2:{ unfold slice_cap. cbn [c1 visible spare]. rewrite take_drop. lia. }
    cbn [c1 visible spare obind items calls]. rewrite take_drop.
    rewrite list_insert_insert_eq. reflexivity. }
  exists c2. split; [|split].
  - rewrite (bind_Returns _ _ _ _ _ H1). exact H2.
  - cbn [c2 visible]. unfold all. apply take_app_le. unfold slice_len in Hm. lia.
  - unfold slice_len. cbn [c2 visible]. rewrite length_take. lia.
Qed.

(** X7.  A size beyond the capacity of the buffer makes [Truncate] panic:
    the buffer is never grown. *)
Theorem Truncate_beyond_capacity_panics (w : World) (h : handle) (d : DriveItem)
    (content : slice) (size : Z) :
  items w !! h = Some d ->
  data d = Some content ->
  Z.of_nat (slice_cap content) < size ->
  Truncate h size w = Panics.
Proof.
  intros Hd Hdata Hsize.
  destruct (Parent d) as [p|] eqn:Hp.
  - rewrite (Truncate_eq w h d p content size Hd Hp Hdata).
    rewrite slice_to_beyond by (right; exact Hsize). reflexivity.
  - unfold Truncate. rewrite (bind_Returns _ _ _ _ _ (load_Returns _ _ _ Hd)).
    apply bind_Panics. unfold lift, Path. rewrite Hp. reflexivity.
Qed.

(** ** Attributes *)

Lemma lor_type_positive (t perms : Z) : 0 < t -> 0 <= perms -> 0 < Z.lor t perms.
Proof.
  intros Ht Hp.
  assert (0 <= Z.lor t perms) by (apply Z.lor_nonneg; lia).
  assert (Z.lor t perms <> 0) by (rewrite Z.lor_eq_0_iff; lia).
  lia.
Qed.

(** X8.  [Chmod(perms)] stores the type bit of the item's kind together with
    [perms], and [Mode()] answers with that word from then on.  A directory
    stays a directory; a file stays a file exactly when [perms] does not
    carry the directory bit. *)
Theorem Chmod_sets_the_mode_word (w : World) (h : handle) (d : DriveItem)
    (p : DriveItemParent) (perms : Z) :
  items w !! h = Some d ->
  Parent d = Some p ->
  0 <= perms ->
  let word := Z.lor (if IsDir d then S_IFDIR else S_IFREG) perms in
  Chmod h perms w = Returns (OK, mkWorld (<[h := set_mode word d]> (items w)) (calls w))
  /\ Mode (set_mode word d) = word
  /\ IsDir (set_mode word d) = IsDir d || (0 <? Z.land perms S_IFDIR).
Proof.
  intros Hd Hp Hperms word.
  assert (Hpos : 0 < word).
  { unfold word. destruct (IsDir d); apply lor_type_positive; try exact Hperms; reflexivity. }
  assert (Hmode : Mode (set_mode word d) = word).
  { rewrite Mode_eq. cbn [mode set_mode].
    destruct (Z.eqb_spec word 0); [lia | reflexivity]. }
  split; [|split; [exact Hmode|]].
  - unfold Chmod.
    rewrite (bind_Returns _ _ _ _ _ (load_Returns _ _ _ Hd)).
    rewrite (Path_eq d p Hp).
    rewrite (bind_Returns _ _ w w (expected_path p (Name d))) by reflexivity.
    rewrite (bind_Returns _ _ _ _ _ (modify_Returns _ _ _ _ Hd)).
    unfold word. destruct (IsDir d); reflexivity.
  - unfold IsDir at 1. rewrite Hmode. unfold word.
    rewrite Z.land_lor_distr_l.
    destruct (IsDir d); cbn [orb].
    + rewrite Z.land_diag. apply Z.ltb_lt. apply lor_type_positive; [reflexivity|].
      apply Z.land_nonneg. left. exact Hperms.
    + change (Z.land S_IFREG S_IFDIR) with 0. rewrite Z.lor_0_l. reflexivity.
Qed.

(** X9.  [Utimens(atime, mtime)] stores [mtime] and ignores [atime]; a
    [GetAttr] that follows reports the seconds of [mtime] since 1970,
    converted to [uint64], as access, modification and change time, with the
    size, link count and mode of the item as before: a time from 1970 on is
    reported as it is, a time [t] before 1970 as [2^64 + t].  With a nil
    [mtime] the call still returns [OK], and the [GetAttr] that follows
    panics. *)
Theorem Utimens_then_GetAttr (w : World) (h : handle) (d : DriveItem)
    (p : DriveItemParent) (atime mtime : option Z) (uid gid : Z) :
  items w !! h = Some d ->
  Parent d = Some p ->
  Utimens h atime mtime w
  = Returns (OK, mkWorld (<[h := set_ModTimeInternal mtime d]> (items w)) (calls w))
  /\ GetAttr uid gid (set_ModTimeInternal mtime d)
     = match mtime with
       | Some t =>
           Returns (mkAttr (Size d) (NLink d) (wrap64 t) (wrap64 t) (wrap64 t) (Mode d)
                           (wrap32 uid) (wrap32 gid), OK)
       | None => Panics
       end
  /\ (forall t, 0 <= t < 2 ^ 64 -> wrap64 t = t)
  /\ (forall t, - 2 ^ 63 <= t < 0 -> wrap64 t = 2 ^ 64 + t).
Proof.
  intros Hd Hp. split; [|split; [|split]].
  - unfold Utimens.
    rewrite (bind_Returns _ _ _ _ _ (load_Returns _ _ _ Hd)).
    rewrite (Path_eq d p Hp).
    rewrite (bind_Returns _ _ w w (expected_path p (Name d))) by reflexivity.
    rewrite (bind_Returns _ _ _ _ _ (modify_Returns _ _ _ _ Hd)).
    reflexivity.
  - destruct mtime as [t|]; [|reflexivity].
    unfold GetAttr, ModTime. cbn [ModTimeInternal set_ModTimeInternal deref obind].
    assert (Hdir : IsDir (set_ModTimeInternal (Some t) d) = IsDir d)
      by (apply IsDir_ext; reflexivity).
    assert (Hmode : Mode (set_ModTimeInternal (Some t) d) = Mode d)
      by (apply Mode_ext; reflexivity).
    unfold Size, NLink. rewrite Hdir, Hmode. reflexivity.
  - intros t Ht. unfold wrap64. apply Z.mod_small. exact Ht.
  - intros t Ht. unfold wrap64.
    rewrite <- (Z.mod_add t 1 (2 ^ 64)) by lia.
    rewrite Z.mul_1_l. rewrite Z.mod_small by lia. lia.
Qed.

(** ** Flush and the root *)

Lemma Flush_clean_eq (fuel : nat) (w : World) (h : handle) (d : DriveItem)
    (p : DriveItemParent) :
  items w !! h = Some d ->
  Parent d = Some p ->
  hasChanges d = false ->
  Flush fuel h w = Returns (OK, w).
Proof.
  intros Hd Hp Hclean. unfold Flush.
  rewrite (bind_Returns _ _ _ _ _ (load_Returns _ _ _ Hd)).
  rewrite (Path_eq d p Hp).
  rewrite (bind_Returns _ _ w w (expected_path p (Name d))) by reflexivity.
  rewrite Hclean. reflexivity.
Qed.

Lemma Flush_dirty_eq (fuel : nat) (w : World) (h r : handle) (d root : DriveItem)
    (p : DriveItemParent) (a : Auth) :
  items w !! h = Some d ->
  Parent d = Some p ->
  hasChanges d = true ->
  getRoot fuel (items w) d = Returns r ->
  items w !! r = Some root ->
  auth root = Some a ->
  Flush fuel h w =
  Returns (OK, mkWorld (<[h := set_hasChanges false d]> (items w))
                       (calls w ++ [Upload_go h a (set_hasChanges false d)])).
Proof.
  intros Hd Hp Hdirty Hroot Hr Ha.
  assert (Hlen : (h < length (items w))%nat) by (apply lookup_lt_Some in Hd; exact Hd).
  unfold Flush.
  rewrite (bind_Returns _ _ _ _ _ (load_Returns _ _ _ Hd)).
  rewrite (Path_eq d p Hp).
  rewrite (bind_Returns _ _ w w (expected_path p (Name d))) by reflexivity.
  rewrite Hdirty.
  set (w' := mkWorld (<[h := set_hasChanges false d]> (items w)) (calls w)).
  assert (Hup : go_Upload h a w' =
                Returns (tt, record_call (Upload_go h a (set_hasChanges false d)) w')).
  { unfold go_Upload.
    rewrite (bind_Returns _ _ w' w' (set_hasChanges false d)); [reflexivity|].
    apply load_Returns. cbn [w' items]. apply list_lookup_insert_eq. exact Hlen. }
  unfold bind at 1.
  rewrite (bind_Returns _ _ w w root)
    by (rewrite Hroot; cbn [obind]; apply load_Returns; exact Hr).
  rewrite Ha.
  rewrite (bind_Returns _ _ w w a) by reflexivity.
  rewrite (bind_Returns _ _ _ _ _ (modify_Returns _ _ _ _ Hd)).
  fold w'. rewrite Hup. reflexivity.
Qed.


(** X10.  A second [Flush] with no write in between hands nothing off: the
    two calls together make the one upload of the first. *)
Theorem Flush_twice_uploads_once (fuel : nat) (w : World) (h r : handle)
    (d root : DriveItem) (p : DriveItemParent) (a : Auth) :
  items w !! h = Some d ->
  Parent d = Some p ->
  hasChanges d = true ->
  getRoot fuel (items w) d = Returns r ->
  items w !! r = Some root ->
  auth root = Some a ->
  (Flush fuel h ;;; Flush fuel h) w =
  Returns (OK, mkWorld (<[h := set_hasChanges false d]> (items w))
                       (calls w ++ [Upload_go h a (set_hasChanges false d)])).
Proof.
  intros Hd Hp Hdirty Hroot Hr Ha.
  rewrite (bind_Returns _ _ _ _ _
             (Flush_dirty_eq fuel w h r d root p a Hd Hp Hdirty Hroot Hr Ha)).
  apply (Flush_clean_eq fuel _ h (set_hasChanges false d) p); [|exact Hp|reflexivity].
  cbn [items]. apply list_lookup_insert_eq. apply lookup_lt_Some in Hd. exact Hd.
Qed.


(** X12.  What [getRoot] returns is an item of the heap whose parent path is
    empty, and more turns of the loop give the same item. *)
Theorem getRoot_returns_a_root (fuel : nat) (heap : list DriveItem) (d : DriveItem)
    (r : handle) :
  getRoot fuel heap d = Returns r ->
  (exists root pp,
     heap !! r = Some root /\ Parent root = Some pp /\ ParentPath pp = ""%string)
  /\ forall fuel', (fuel <= fuel')%nat -> getRoot fuel' heap d = Returns r.
Proof.
  unfold getRoot. intros H.
  destruct (Parent d) as [p|]; [|discriminate]. cbn [deref obind] in *.
  split.
  - exact (getRoot_loop_is_root heap r fuel (Parentitem p) H).
  - intros fuel' Hle. exact (getRoot_loop_more_fuel heap r fuel fuel' (Parentitem p) H Hle).
Qed.

(** X13.  On a heap where every item has a parent reference with a path that
    is not empty and a parent pointer into the heap, [getRoot] finds no root:
    no number of turns of the loop ends it. *)
Theorem getRoot_without_root_never_returns (heap : list DriveItem) :
  (forall i x, heap !! i = Some x ->
     exists pp j, Parent x = Some pp /\ ParentPath pp <> ""%string
                  /\ Parentitem pp = Some j /\ is_Some (heap !! j)) ->
  forall fuel i x, heap !! i = Some x -> getRoot fuel heap x = OutOfFuel.
Proof.
  intros Hall.
  assert (Hloop : forall fuel j, is_Some (heap !! j) ->
                                 getRoot_loop fuel heap (Some j) = OutOfFuel).
  { induction fuel as [|fuel IH]; intros j [x Hx]; [reflexivity|].
    cbn [getRoot_loop deref obind]. rewrite Hx. cbn [deref obind].
    destruct (Hall j x Hx) as (pp & k & Hpp & Hne & Hk & Hsome).
    rewrite Hpp. cbn [deref obind].
    apply String.eqb_neq in Hne. rewrite Hne, Hk. apply IH. exact Hsome. }
  intros fuel i x Hx. unfold getRoot.
  destruct (Hall i x Hx) as (pp & k & Hpp & _ & Hk & Hsome).
  rewrite Hpp. cbn [deref obind]. rewrite Hk. apply Hloop. exact Hsome.
Qed.

(** ** Identity resolution, further *)

Section IdentityMore.

Variable env : Collaborators.

Lemma ID_cached_eq (fuel : nat) (w : World) (h : handle) (d : DriveItem)
    (p : DriveItemParent) (a : Auth) :
  items w !! h = Some d ->
  Parent d = Some p ->
  IsDir d = true \/ IDInternal d <> ""%string \/ AccessToken a = ""%string ->
  ID env (S fuel) h a w = Returns ((IDInternal d, None), w).
Proof.
  intros Hd Hp Hcase. rewrite ID_unfold.
  rewrite (bind_Returns _ _ _ _ _ (load_Returns _ _ _ Hd)).
  rewrite Hp. rewrite (bind_Returns _ _ w w p) by reflexivity.
  destruct (IsDir d) eqn:Hdir; [reflexivity|].
  destruct Hcase as [Hc|[Hc|Hc]]; [discriminate| |].
  - apply String.eqb_neq in Hc. rewrite Hc. reflexivity.
  - rewrite Hc. cbn [String.eqb negb]. rewrite andb_false_r. reflexivity.
Qed.

(** X14.  For a directory, for an item with a cached identifier, and with an
    empty access token, [ID] answers with the cached identifier, makes no
    call to the transport and changes nothing. *)
Theorem ID_answers_from_the_item (fuel : nat) (w : World) (h : handle) (d : DriveItem)
    (p : DriveItemParent) (a : Auth) :
  items w !! h = Some d ->
  Parent d = Some p ->
  IsDir d = true \/ IDInternal d <> ""%string \/ AccessToken a = ""%string ->
  ID env (S fuel) h a w = Returns ((IDInternal d, None), w)
  /\ (ID env (S fuel) h a ;;; ID env (S fuel) h a) w = Returns ((IDInternal d, None), w).
Proof.
  intros Hd Hp Hcase.
  pose proof (ID_cached_eq fuel w h d p a Hd Hp Hcase) as H.
  split; [exact H|]. rewrite (bind_Returns _ _ _ _ _ H). exact H.
Qed.

(** The head of [ID] on a file without identifier, with a token: the upload
    of the placeholder, and what follows on its answer. *)
Lemma ID_upload_eq (fuel : nat) (w : World) (h : handle) (d : DriveItem)
    (p : DriveItemParent) (a : Auth) :
  items w !! h = Some d ->
  Parent d = Some p ->
  IsDir d = false ->
  IDInternal d = ""%string ->
  AccessToken a <> ""%string ->
  let w1 := record_call (Put_call (placeholder_path p d) a []) w in
  let w2 := mkWorld (others env w1) (calls w1) in
  ID env (S fuel) h a w =
  match remote_Put env (placeholder_path p d) a [] w1 with
  | inl err =>
      if Contains err "nameAlreadyExists" then
        (d <- load h ;;
         let id := IDInternal d in
         path <- lift (Path d) ;;
         if negb (String.eqb id "") then ret (id, None)
         else
           r2 <- GetItem env path a ;;
           match r2 with
           | inr latest => ret (IDInternal latest, None)
           | inl _ => ret (""%string, Some err)
           end) w2
      else Returns ((""%string, Some err), w2)
  | inr resp =>
      (unsafe <- NewDriveItem env fuel (Name d) perm_0644 (Parentitem p) ;;
       match json_Unmarshal_item env (visible resp) unsafe with
       | inl err => ret (""%string, Some err)
       | inr unsafe' =>
           modify h (set_IDInternal (IDInternal unsafe')) ;;;
           ret (IDInternal unsafe', None)
       end) w2
  end.
Proof.
  intros Hd Hp Hfile Hid Ha w1 w2. rewrite ID_unfold.
  rewrite (bind_Returns _ _ _ _ _ (load_Returns _ _ _ Hd)).
  rewrite Hp. rewrite (bind_Returns _ _ w w p) by reflexivity.
  cbv zeta. rewrite Hfile, Hid.
  assert (String.eqb (AccessToken a) "" = false) as ->
    by (apply String.eqb_neq; exact Ha).
  cbn [String.eqb negb andb].
  unfold bind at 1, Put. cbn [obind fst snd].
  change (remote_Put env _ a [] _) with (remote_Put env (placeholder_path p d) a [] w1).
  change (mkWorld (others env _) _) with w2.
  destruct (remote_Put env (placeholder_path p d) a [] w1) as [err|resp]; [|reflexivity].
  destruct (Contains err "nameAlreadyExists"); reflexivity.
Qed.

Lemma NewDriveItem_eq (fuel : nat) (w : World) (name : string) (mode_ : Z) (ph : handle)
    (pd : DriveItem) (ppd : DriveItemParent) :
  items w !! ph = Some pd ->
  Parent pd = Some ppd ->
  NewDriveItem env (S fuel) name mode_ (Some ph) w
  = Returns (new_item (time_Now env) name mode_ ph pd ppd, w).
Proof.
  intros Hpd Hppd. unfold NewDriveItem. cbn [deref].
  rewrite (bind_Returns _ _ w w ph) by reflexivity.
  rewrite (bind_Returns _ _ _ _ _
             (ID_cached_eq fuel w ph pd ppd (mkAuth "") Hpd Hppd
                (or_intror (or_intror eq_refl)))).
  rewrite (bind_Returns _ _ _ _ _ (load_Returns _ _ _ Hpd)).
  rewrite Hppd. rewrite (bind_Returns _ _ w w ppd) by reflexivity.
  reflexivity.
Qed.

(** X15.  A placeholder upload that succeeds and decodes: [ID] returns the
    decoded identifier and stores it on the live item, of which nothing else
    changes; one upload is recorded.  When the identifier is not empty, every
    later call answers with it and makes no further upload. *)
Theorem ID_upload_stores_the_identifier (fuel : nat) (w : World) (h ph : handle)
    (d d1 pd u : DriveItem) (p ppd : DriveItemParent) (a : Auth) (resp : slice) :
  items w !! h = Some d ->
  Parent d = Some p ->
  IsDir d = false ->
  IDInternal d = ""%string ->
  AccessToken a <> ""%string ->
  let w1 := record_call (Put_call (placeholder_path p d) a []) w in
  let w3 := mkWorld (<[h := set_IDInternal (IDInternal u) d1]> (others env w1)) (calls w1) in
  remote_Put env (placeholder_path p d) a [] w1 = inr resp ->
  others env w1 !! h = Some d1 ->
  Parentitem p = Some ph ->
  others env w1 !! ph = Some pd ->
  Parent pd = Some ppd ->
  json_Unmarshal_item env (visible resp)
    (new_item (time_Now env) (Name d) perm_0644 ph pd ppd) = inr u ->
  ID env (S (S fuel)) h a w = Returns ((IDInternal u, None), w3)
  /\ calls w3 = calls w ++ [Put_call (placeholder_path p d) a []]
  /\ (IDInternal u <> ""%string -> is_Some (Parent d1) ->
      forall a', ID env (S fuel) h a' w3 = Returns ((IDInternal u, None), w3)).
Proof.
  intros Hd Hp Hfile Hid Ha w1 w3 Hput Hd1 Hph Hpd Hppd Hjson.
  split; [|split; [reflexivity|]].
  - rewrite (ID_upload_eq (S fuel) w h d p a Hd Hp Hfile Hid Ha).
    fold w1. rewrite Hput, Hph.
    set (w2 := mkWorld (others env w1) (calls w1)).
    rewrite (bind_Returns _ _ _ _ _
               (NewDriveItem_eq fuel w2 (Name d) perm_0644 ph pd ppd Hpd Hppd)).
    rewrite Hjson.
    rewrite (bind_Returns _ _ _ _ _ (modify_Returns w2 h d1 _ Hd1)).
    reflexivity.
  - intros Hne [p1 Hp1] a'.
    apply (ID_cached_eq fuel w3 h (set_IDInternal (IDInternal u) d1) p1 a').
    + cbn [w3 items]. apply list_lookup_insert_eq. apply lookup_lt_Some in Hd1. exact Hd1.
    + exact Hp1.
    + right. left. exact Hne.
Qed.

(** X16.  An upload that fails with an error that does not mention
    [nameAlreadyExists]: [ID] returns the empty identifier and that error,
    having made the one call and written nothing. *)
Theorem ID_other_upload_error_is_returned (fuel : nat) (w : World) (h : handle)
    (d : DriveItem) (p : DriveItemParent) (a : Auth) (err : error) :
  items w !! h = Some d ->
  Parent d = Some p ->
  IsDir d = false ->
  IDInternal d = ""%string ->
  AccessToken a <> ""%string ->
  let w1 := record_call (Put_call (placeholder_path p d) a []) w in
  remote_Put env (placeholder_path p d) a [] w1 = inl err ->
  Contains err "nameAlreadyExists" = false ->
  ID env (S fuel) h a w
  = Returns ((""%string, Some err), mkWorld (others env w1) (calls w1)).
Proof.
  intros Hd Hp Hfile Hid Ha w1 Hput Herr.
  rewrite (ID_upload_eq fuel w h d p a Hd Hp Hfile Hid Ha).
  fold w1. rewrite Hput, Herr. reflexivity.
Qed.

End IdentityMore.

Lemma bind_ext {A B : Type} (m m' : M A) (k k' : A -> M B) (w : World) :
  m w = m' w -> (forall a w', k a w' = k' a w') -> bind m k w = bind m' k' w.
Proof.
  intros Hm Hk. unfold bind. rewrite Hm.
  destruct (m' w) as [[a w']| |]; cbn [obind fst snd]; [apply Hk|reflexivity|reflexivity].
Qed.

Lemma bind_fuel {A B : Type} (m : M A) (k : A -> M B) (w : World) :
  m w <> OutOfFuel -> (forall a w', k a w' <> OutOfFuel) -> bind m k w <> OutOfFuel.
Proof.
  intros Hm Hk. unfold bind.
  destruct (m w) as [[a w']| |]; cbn [obind fst snd]; [apply Hk|discriminate|congruence].
Qed.

Lemma deref_fuel {A : Type} (o : option A) (w : World) : lift (deref o) w <> OutOfFuel.
Proof. destruct o; discriminate. Qed.

Lemma load_fuel (h : handle) (w : World) : load h w <> OutOfFuel.
Proof. unfold load. destruct (items w !! h); discriminate. Qed.

Lemma modify_fuel (h : handle) (f : DriveItem -> DriveItem) (w : World) :
  modify h f w <> OutOfFuel.
Proof. unfold modify. destruct (items w !! h); discriminate. Qed.

Lemma Path_fuel (d : DriveItem) (w : World) : lift (Path d) w <> OutOfFuel.
Proof. unfold Path. destruct (Parent d); cbn; [destruct (_ && _)|]; discriminate. Qed.

Section Fuel.

Variable env : Collaborators.

(** With an empty access token one level of [ID] is enough. *)
Lemma ID_empty_token_fuel (fuel : nat) (w : World) (h : handle) :
  ID env (S fuel) h (mkAuth "") w = ID env 1 h (mkAuth "") w
  /\ ID env 1 h (mkAuth "") w <> OutOfFuel.
Proof.
  rewrite !ID_unfold. cbn [AccessToken String.eqb negb]. split.
  - apply bind_ext; [reflexivity|intros cpy w1].
    apply bind_ext; [reflexivity|intros cp w2]. cbv zeta.
    destruct (IsDir cpy); [reflexivity|]. rewrite andb_false_r. reflexivity.
  - apply bind_fuel; [apply load_fuel|intros cpy w1].
    apply bind_fuel; [apply deref_fuel|intros cp w2]. cbv zeta.
    destruct (IsDir cpy); [discriminate|]. rewrite andb_false_r. discriminate.
Qed.

Lemma NewDriveItem_fuel (fuel : nat) (w : World) (name : string) (mode_ : Z)
    (parent : option handle) :
  NewDriveItem env (S fuel) name mode_ parent w = NewDriveItem env 1 name mode_ parent w
  /\ NewDriveItem env 1 name mode_ parent w <> OutOfFuel.
Proof.
  unfold NewDriveItem. split.
  - apply bind_ext; [reflexivity|intros ph w1].
    apply bind_ext; [apply ID_empty_token_fuel|reflexivity].
  - apply bind_fuel; [apply deref_fuel|intros ph w1].
    apply bind_fuel; [apply ID_empty_token_fuel; exact 0%nat|intros r w2].
    apply bind_fuel; [apply load_fuel|intros pd w3].
    apply bind_fuel; [apply deref_fuel|intros pp w4]. discriminate.
Qed.

(** X17.  Two levels of calls are all that [ID] and [NewDriveItem] ever
    nest: with fuel 2 or more [ID] does not run out of fuel, and its outcome
    is that of fuel 2. *)
Theorem ID_needs_two_levels (fuel : nat) (w : World) (h : handle) (a : Auth) :
  ID env (S (S fuel)) h a w = ID env 2 h a w
  /\ ID env (S (S fuel)) h a w <> OutOfFuel.
Proof.
  assert (Heq : ID env (S (S fuel)) h a w = ID env 2 h a w).
  { rewrite !ID_unfold.
    apply bind_ext; [reflexivity|intros cpy w1].
    apply bind_ext; [reflexivity|intros cp w2]. cbv zeta.
    destruct (IsDir cpy); [reflexivity|].
    destruct (_ && _); [|reflexivity].
    apply bind_ext; [reflexivity|intros r w3].
    destruct r as [err|resp]; [reflexivity|].
    apply bind_ext; [apply NewDriveItem_fuel|reflexivity]. }
  split; [exact Heq|]. rewrite Heq. clear Heq.
  rewrite ID_unfold.
  apply bind_fuel; [apply load_fuel|intros cpy w1].
  apply bind_fuel; [apply deref_fuel|intros cp w2]. cbv zeta.
  destruct (IsDir cpy); [discriminate|].
  destruct (_ && _); [|discriminate].
  apply bind_fuel; [discriminate|intros r w3].
  destruct r as [err|resp].
  - destruct (Contains err "nameAlreadyExists"); [|discriminate].
    apply bind_fuel; [apply load_fuel|intros d w4].
    apply bind_fuel; [apply Path_fuel|intros path w5].
    destruct (negb _); [discriminate|].
    apply bind_fuel; [discriminate|intros r2 w6].
    destruct r2; discriminate.
  - apply bind_fuel; [apply NewDriveItem_fuel; exact 0%nat|intros unsafe w4].
    destruct (json_Unmarshal_item env (visible resp) unsafe); [discriminate|].
    apply bind_fuel; [apply modify_fuel|intros ? w5]. discriminate.
Qed.

End Fuel.

(** ** Content fetch, new items, reparenting *)

Section Content.

Variable env : Collaborators.

(** X18.  [FetchContent] on an item with a cached identifier makes one
    request, for the content at that identifier.  When the request fails the
    error is returned and nothing is written; when it succeeds the answer
    becomes the buffer of the live item, whose declared size and dirty flag
    stay as they were. *)
Theorem FetchContent_replaces_the_buffer (fuel : nat) (w : World) (h : handle)
    (d : DriveItem) (p : DriveItemParent) (a : Auth) :
  items w !! h = Some d ->
  Parent d = Some p ->
  IDInternal d <> ""%string ->
  let w1 := record_call (Get_call (content_path (IDInternal d)) a) w in
  (forall err,
     remote_Get env (content_path (IDInternal d)) a w1 = inl err ->
     FetchContent env (S fuel) h a w
     = Returns (Some err, mkWorld (others env w1) (calls w1)))
  /\ (forall body d1,
        remote_Get env (content_path (IDInternal d)) a w1 = inr body ->
        others env w1 !! h = Some d1 ->
        FetchContent env (S fuel) h a w
        = Returns (None, mkWorld (<[h := set_data (Some body) d1]> (others env w1))
                                 (calls w1))).
Proof.
  intros Hd Hp Hid w1.
  assert (Hhead : FetchContent env (S fuel) h a w =
    match remote_Get env (content_path (IDInternal d)) a w1 with
    | inl err => Returns (Some err, mkWorld (others env w1) (calls w1))
    | inr body =>
        (modify h (set_data (Some body)) ;;; ret None)
          (mkWorld (others env w1) (calls w1))
    end).
  { unfold FetchContent.
    rewrite (bind_Returns _ _ _ _ _
               (ID_cached_eq env fuel w h d p a Hd Hp (or_intror (or_introl Hid)))).
    cbn [fst snd]. unfold bind at 1, Get. cbn [obind fst snd].
    fold (content_path (IDInternal d)). fold w1.
    destruct (remote_Get env (content_path (IDInternal d)) a w1); reflexivity. }
  split.
  - intros err Hget. rewrite Hhead, Hget. reflexivity.
  - intros body d1 Hget Hd1. rewrite Hhead, Hget.
    rewrite (bind_Returns _ _ _ _ _
               (modify_Returns (mkWorld (others env w1) (calls w1)) h d1 _ Hd1)).
    reflexivity.
Qed.

(** X19.  [NewDriveItem] under a parent with a parent reference makes no
    call and changes nothing: it yields an item with no identifier, an empty
    buffer, a clear dirty flag and an empty child map that is not nil; with
    a nil parent it panics.  Wherever the new item is placed, [GetChildren]
    on it makes no request. *)
Theorem NewDriveItem_is_local (fuel : nat) (w : World) (name : string) (mode_ : Z)
    (ph : handle) (pd : DriveItem) (ppd : DriveItemParent) :
  items w !! ph = Some pd ->
  Parent pd = Some ppd ->
  NewDriveItem env (S fuel) name mode_ (Some ph) w
  = Returns (new_item (time_Now env) name mode_ ph pd ppd, w)
  /\ NewDriveItem env (S fuel) name mode_ None w = Panics
  /\ forall w' h' a,
       items w' !! h' = Some (new_item (time_Now env) name mode_ ph pd ppd) ->
       GetChildren env h' a w' = Returns ((Some ∅, None), w').
Proof.
  intros Hpd Hppd. split; [|split].
  - apply NewDriveItem_eq; assumption.
  - reflexivity.
  - intros w' h' a Hnew.
    apply (GetChildren_cached env w' h' a _ Hnew).
    cbn [children new_item]. rewrite bool_decide_eq_true_2 by eauto. apply orb_true_r.
Qed.

(** X20.  [setParent] to a parent other than the item itself makes no call
    and stores on the item the identifier
    and the path of the new parent and the pointer to it; the path of the
    item is then that of the new parent, a slash and the item's name.  Under
    the root the path is a slash and the name. *)
Theorem setParent_moves_the_path (fuel : nat) (w : World) (h ph : handle)
    (d np : DriveItem) (pnp : DriveItemParent) :
  items w !! h = Some d ->
  items w !! ph = Some np ->
  h <> ph ->
  Parent np = Some pnp ->
  let moved := set_Parent (Some (mkParent (IDInternal np) (expected_path pnp (Name np))
                                          (Some ph))) d in
  setParent env (S fuel) h (Some ph) w
  = Returns (tt, mkWorld (<[h := moved]> (items w)) (calls w))
  /\ (expected_path pnp (Name np) = "/"%string ->
      Contains (Name d) "//" = false ->
      Path moved = Returns ("/" +:+ Name d))
  /\ (expected_path pnp (Name np) <> ""%string ->
      HasPrefix (expected_path pnp (Name np) +:+ "/" +:+ Name d) "/drive/root:" = false ->
      Contains (expected_path pnp (Name np) +:+ "/" +:+ Name d) "//" = false ->
      Path moved = Returns (expected_path pnp (Name np) +:+ "/" +:+ Name d)).
Proof.
  intros Hd Hnp _ Hpnp moved. split; [|split].
  - unfold setParent.
    rewrite (bind_Returns _ _ _ _ _ (load_Returns _ _ _ Hd)). cbn [deref].
    rewrite (bind_Returns _ _ w w ph) by reflexivity.
    rewrite (bind_Returns _ _ _ _ _
               (ID_cached_eq env fuel w ph np pnp (mkAuth "") Hnp Hpnp
                  (or_intror (or_intror eq_refl)))).
    rewrite (bind_Returns _ _ _ _ _ (load_Returns _ _ _ Hnp)).
    rewrite (Path_eq np pnp Hpnp).
    rewrite (bind_Returns _ _ w w (expected_path pnp (Name np))) by reflexivity.
    cbn [fst snd].
    exact (modify_Returns w h d
             (set_Parent (Some (mkParent (IDInternal np) (expected_path pnp (Name np))
                                         (Some ph)))) Hd).
  - intros Hroot Hname.
    rewrite (Path_eq moved _ eq_refl). f_equal.
    unfold expected_path at 1, is_root_item. cbn [ParentPath]. rewrite Hroot.
    change (String.eqb "/" "") with false. cbn [andb].
    change (Name moved) with (Name d).
    rewrite TrimPrefix_none by reflexivity.
    change ("/" +:+ "/" +:+ Name d) with ("" +:+ "//" +:+ Name d).
    rewrite (ReplaceAll_leftmost "" (Name d)) by reflexivity.
    rewrite (ReplaceAll_no_double (Name d) Hname). reflexivity.
  - intros Hne Hmarker Hslashes.
    rewrite (Path_eq moved _ eq_refl). f_equal.
    unfold expected_path at 1, is_root_item. cbn [ParentPath].
    apply String.eqb_neq in Hne. rewrite Hne. cbn [andb].
    change (Name moved) with (Name d).
    rewrite (TrimPrefix_none _ _ Hmarker). apply ReplaceAll_no_double. exact Hslashes.
Qed.

End Content.

(** X21.  The path of an item whose stored parent path is the marker
    [/drive/root:] followed by [rest], as the remote gives it: [rest], a
    slash and the name, when no two slashes meet in it. *)
Theorem Path_below_the_marker (d : DriveItem) (p : DriveItemParent) (rest : string) :
  Parent d = Some p ->
  ParentPath p = ("/drive/root:" +:+ rest)%string ->
  Contains (rest +:+ "/" +:+ Name d) "//" = false ->
  Path d = Returns (rest +:+ "/" +:+ Name d).
Proof.
  intros Hp Hpath Hslashes. rewrite (Path_eq d p Hp). f_equal.
  unfold expected_path, is_root_item. rewrite Hpath.
  change (String.eqb ("/drive/root:" +:+ rest) "") with false. cbn [andb].
  assert (("/drive/root:" +:+ rest) +:+ "/" +:+ Name d
          = "/drive/root:" +:+ (rest +:+ "/" +:+ Name d)) as -> by reflexivity.
  rewrite TrimPrefix_app. apply ReplaceAll_no_double. exact Hslashes.
Qed.

(** ** The listed children *)

Lemma index_children_snoc (lower : string -> string) (cs : list DriveItem) (c : DriveItem) :
  forall (base : nat) (m : gmap string handle),
    index_children lower base (cs ++ [c]) m
    = <[lower (Name c) := (base + length cs)%nat]> (index_children lower base cs m).
Proof.
  induction cs as [|c0 cs IH]; intros base m.
  - cbn [index_children app length]. rewrite Nat.add_0_r. reflexivity.
  - cbn [index_children app length]. rewrite IH. f_equal. lia.
Qed.

(** Every entry of the map is the handle of a child of that name. *)
Lemma index_children_sound (lower : string -> string) (base : nat) (cs : list DriveItem)
    (key : string) (j : handle) :
  index_children lower base cs ∅ !! key = Some j ->
  exists k c, j = (base + k)%nat /\ cs !! k = Some c /\ lower (Name c) = key.
Proof.
  induction cs as [|c cs IH] using rev_ind; intros H.
  - cbn [index_children] in H. rewrite lookup_empty in H. discriminate.
  - rewrite index_children_snoc in H.
    destruct (decide (lower (Name c) = key)) as [Hk|Hk].
    + rewrite Hk, lookup_insert_eq in H. injection H as <-.
      exists (length cs), c. split; [reflexivity|]. split; [|exact Hk].
      rewrite lookup_app_r by lia. rewrite Nat.sub_diag. reflexivity.
    + rewrite lookup_insert_ne in H by exact Hk.
      destruct (IH H) as (k & c' & Hj & Hc' & Hkey).
      exists k, c'. split; [exact Hj|]. split; [|exact Hkey].
      apply lookup_app_l_Some. exact Hc'.
Qed.

(** Every child is found under its name, unless a later child of the same
    name took its place. *)
Lemma index_children_complete (lower : string -> string) (base : nat)
    (cs : list DriveItem) (k : nat) (c : DriveItem) :
  cs !! k = Some c ->
  exists k' c',
    (k <= k')%nat /\ cs !! k' = Some c' /\ lower (Name c') = lower (Name c)
    /\ index_children lower base cs ∅ !! lower (Name c) = Some (base + k')%nat.
Proof.
  revert k c. induction cs as [|c0 cs IH] using rev_ind; intros k c H.
  - discriminate.
  - rewrite index_children_snoc.
    destruct (decide (lower (Name c0) = lower (Name c))) as [Hk|Hk].
    + exists (length cs), c0.
      split; [apply lookup_lt_Some in H; rewrite length_app in H; cbn in H; lia|].
      split; [rewrite lookup_app_r by lia; rewrite Nat.sub_diag; reflexivity|].
      split; [exact Hk|]. rewrite Hk. apply lookup_insert_eq.
    + assert (Hin : cs !! k = Some c).
      { destruct (decide (k < length cs)%nat) as [Hlt|Hge].
        - rewrite lookup_app_l in H by exact Hlt. exact H.
        - rewrite lookup_app_r in H by lia.
          destruct (k - length cs)%nat; [|discriminate].
          injection H as ->. congruence. }
      destruct (IH k c Hin) as (k' & c' & Hle & Hc' & Hname & Hm).
      exists k', c'. split; [exact Hle|].
      split; [apply lookup_app_l_Some; exact Hc'|]. split; [exact Hname|].
      rewrite lookup_insert_ne by exact Hk. exact Hm.
Qed.

Section Children.

Variable env : Collaborators.

(** The heap and the map the loop of [GetChildren] leaves. *)
Lemma insert_children_shape (h : handle) (cs : list DriveItem) :
  forall (w : World) (d : DriveItem) (m : gmap string handle),
    items w !! h = Some d ->
    children d = Some m ->
    Forall (fun c => is_Some (Parent c)) cs ->
    exists s',
      insert_children env h (map Some cs) w =
      Returns (tt, mkWorld
                     (<[h := set_children
                               (Some (index_children (ToLower env) (length (items w)) cs m))
                               (set_subdir s' d)]> (items w ++ map (adopt h) cs))
                     (calls w)).
Proof.
  induction cs as [|c cs IH]; intros w d m Hd Hm Hall.
  - exists (subdir d). cbn [map insert_children index_children]. unfold ret.
    rewrite app_nil_r. destruct w as [heap cs0]. cbn [items calls] in *.
    do 3 f_equal. symmetry. apply list_insert_id.
    transitivity (Some d); [exact Hd|].
    f_equal. destruct d. cbn in Hm |- *. rewrite Hm. reflexivity.
  - apply Forall_cons in Hall as [[cp Hcp] Hall].
    assert (Hlen : (h < length (items w))%nat) by (apply lookup_lt_Some in Hd; exact Hd).
    cbn [map]. rewrite (insert_children_cons env h c cp (map Some cs) w d m Hd Hm Hcp).
    set (child := set_Parent (Some (mkParent (ParentID cp) (ParentPath cp) (Some h))) c).
    assert (Hchild : adopt h c = child) by (unfold adopt; rewrite Hcp; reflexivity).
    set (m1 := <[ToLower env (Name child) := length (items w)]> m).
    set (d1 := set_children (Some m1)
                 (if IsDir c then set_subdir (wrap32 (subdir d + 1)) d else d)).
    destruct (IH (mkWorld (<[h := d1]> (items w ++ [child])) (calls w)) d1 m1)
      as [s' Hs'];
      [ cbn [items]; apply list_lookup_insert_eq; rewrite length_app; lia
      | reflexivity | exact Hall | ].
    exists s'. rewrite Hs'. cbn [items calls]. do 3 f_equal.
    rewrite length_insert, length_app. cbn [length map index_children].
    rewrite Hchild, Nat.add_1_r.
    rewrite (insert_app_l (<[h := d1]> (items w ++ [child])))
      by (rewrite length_insert, length_app; lia).
    rewrite list_insert_insert_eq.
    rewrite <- insert_app_l by (rewrite length_app; lia).
    rewrite <- app_assoc. cbn [app].
    f_equal. unfold d1, m1. destruct (IsDir c); reflexivity.
Qed.

(** X22.  A listing that succeeds puts every listed child on the heap, after
    the items that were there and in the order of the listing, with its
    parent pointer set to the directory; the items that were there, the
    directory apart, are as before.  Every entry of the returned map leads to
    a listed child under its lower-cased name, and every listed child is
    found under its lower-cased name unless a later child of the same
    lower-cased name took its place. *)
Theorem GetChildren_places_the_children (w : World) (h : handle) (a : Auth)
    (d d1 : DriveItem) (p : DriveItemParent) (body : slice) (cs : list DriveItem) :
  items w !! h = Some d ->
  IsDir d = true ->
  children d = None ->
  Parent d = Some p ->
  let w1 := record_call (Get_call (listing_path env p d) a) w in
  let base := length (others env w1) in
  remote_Get env (listing_path env p d) a w1 = inr body ->
  others env w1 !! h = Some d1 ->
  json_Unmarshal_children env (visible body) = map Some cs ->
  Forall (fun c => is_Some (Parent c)) cs ->
  exists m w2,
    GetChildren env h a w = Returns ((Some m, None), w2)
    /\ length (items w2) = (base + length cs)%nat
    /\ (forall i, (i < base)%nat -> i <> h -> items w2 !! i = others env w1 !! i)
    /\ (forall k c, cs !! k = Some c -> items w2 !! (base + k)%nat = Some (adopt h c))
    /\ (forall key j, m !! key = Some j ->
          exists k c, j = (base + k)%nat /\ cs !! k = Some c
                      /\ ToLower env (Name c) = key)
    /\ (forall k c, cs !! k = Some c ->
          exists k' c', (k <= k')%nat /\ cs !! k' = Some c'
                        /\ ToLower env (Name c') = ToLower env (Name c)
                        /\ m !! ToLower env (Name c) = Some (base + k')%nat).
Proof.
  intros Hd Hdir Hnil Hp w1 base Hget Hd1 Hjson Hall.
  assert (Hlen : (h < base)%nat) by (apply lookup_lt_Some in Hd1; exact Hd1).
  set (w2 := mkWorld (others env w1) (calls w1)).
  set (w3 := mkWorld (<[h := set_children (Some ∅) d1]> (items w2)) (calls w2)).
  assert (H3 : items w3 !! h = Some (set_children (Some ∅) d1))
    by (cbn [w3 items]; apply list_lookup_insert_eq; exact Hlen).
  destruct (insert_children_shape h cs w3 _ ∅ H3 eq_refl Hall) as [s' Hloop].
  assert (Hbase : length (items w3) = base)
    by (cbn [w3 w2 items]; apply length_insert).
  rewrite Hbase in Hloop.
  set (m := index_children (ToLower env) base cs ∅) in *.
  set (d2 := set_children (Some m) (set_subdir s' (set_children (Some ∅) d1))) in *.
  exists m, (mkWorld (<[h := d2]> (items w3 ++ map (adopt h) cs)) (calls w3)).
  assert (Hh : (<[h := d2]> (items w3 ++ map (adopt h) cs)) !! h = Some d2)
    by (apply list_lookup_insert_eq; rewrite length_app; lia).
  split; [|split; [|split; [|split; [|split]]]].
  - rewrite (GetChildren_fetch env w h a d p Hd Hdir Hnil Hp).
    fold w1. rewrite Hget. cbn [after_listing]. rewrite Hjson.
    rewrite (bind_Returns _ _ _ _ _ (modify_Returns w2 h d1 _ Hd1)). fold w3.
    rewrite (bind_Returns _ _ _ _ _ Hloop).
    rewrite (bind_Returns _ _ _ _ _
               (load_Returns (mkWorld (<[h := d2]> (items w3 ++ map (adopt h) cs)) (calls w3))
                             h d2 Hh)).
    reflexivity.
  - cbn [items]. rewrite length_insert, length_app, length_map. lia.
  - intros i Hi Hne. cbn [items].
    rewrite list_lookup_insert_ne by congruence.
    rewrite lookup_app_l by lia. cbn [w3 w2 items].
    apply list_lookup_insert_ne. congruence.
  - intros k c Hc. cbn [items].
    rewrite list_lookup_insert_ne by lia.
    rewrite lookup_app_r by lia.
    replace (base + k - length (items w3))%nat with k by lia.
    rewrite list_lookup_fmap, Hc. reflexivity.
  - intros key j Hm. exact (index_children_sound (ToLower env) base cs key j Hm).
  - intros k c Hc. exact (index_children_complete (ToLower env) base cs k c Hc).
Qed.

End Children.

(** ** Package logger *)

Lemma string_length_app (a b : string) :
  String.length (a +:+ b) = (String.length a + String.length b)%nat.
Proof.
  induction a as [|c a IH]; [reflexivity|].
  change (S (String.length (a +:+ b)) = S (String.length a + String.length b)).
  f_equal. exact IH.
Qed.

Lemma string_app_nil_r (a : string) : a +:+ "" = a.
Proof.
  induction a as [|c a IH]; [reflexivity|].
  change (String c (a +:+ "") = String c a). f_equal. exact IH.
Qed.

Lemma string_app_assoc (a b c : string) : (a +:+ b) +:+ c = a +:+ b +:+ c.
Proof.
  induction a as [|x a IH]; [reflexivity|].
  change (String x ((a +:+ b) +:+ c) = String x (a +:+ b +:+ c)). f_equal. exact IH.
Qed.

Lemma spaces_length (k : nat) : String.length (Logger.spaces k) = k.
Proof.
  induction k as [|k IH]; [reflexivity|].
  change (S (String.length (Logger.spaces k)) = S k). f_equal. exact IH.
Qed.

(** X23.  [pad(text, length)] is [text] followed by spaces only, and has
    [length] characters when [text] is shorter and the characters of [text]
    otherwise; a text that is long enough, or a negative [length], gives
    [text] back. *)
Theorem Logger_pad_fills_with_spaces (text : string) (length : Z) :
  String.length (Logger.pad text length)
  = Nat.max (String.length text) (Z.to_nat length)
  /\ (exists k, Logger.pad text length = text +:+ Logger.spaces k)
  /\ (length <= Z.of_nat (String.length text) -> Logger.pad text length = text).
Proof.
  unfold Logger.pad.
  destruct (Z.ltb_spec (Z.of_nat (String.length text)) length) as [Hlt|Hge].
  - split; [|split].
    + rewrite string_length_app, spaces_length. lia.
    + eexists. reflexivity.
    + lia.
  - split; [lia|]. split; [|reflexivity].
    exists 0%nat. cbn [Logger.spaces]. symmetry. apply string_app_nil_r.
Qed.

Lemma level_name_length (level : Logger.LogLevel) :
  0 <= level <= 4 -> String.length (Logger.pad (Logger.level_name level) 5) = 5%nat.
Proof.
  intros H.
  assert (level = 0 \/ level = 1 \/ level = 2 \/ level = 3 \/ level = 4) as Hcases by lia.
  destruct Hcases as [->|[->|[->|[->| ->]]]]; reflexivity.
Qed.

(** X24.  After [SetLogLevel(cur)], [logger] prints a message exactly when
    its level is at most [cur]: one line, made of the name of the level
    padded to five characters, the caller and the formatted message.  The
    level in force is not changed by printing. *)
Theorem Logger_prints_up_to_the_level (Arg : Type) (Sprintf : string -> list Arg -> string)
    (caller : string) (cur level : Logger.LogLevel) (format : string) (args : list Arg)
    (st : Logger.State) :
  Logger.logger Arg Sprintf caller level format args (Logger.SetLogLevel cur st)
  = Logger.mkState cur
      (Logger.printed st ++
       (if level <=? cur then [Logger.line caller level (Sprintf format args)] else []))
  /\ (0 <= level <= 4 -> String.length (Logger.pad (Logger.level_name level) 5) = 5%nat).
Proof.
  split; [|apply level_name_length].
  unfold Logger.logger, Logger.SetLogLevel. cbn [Logger.currentLevel Logger.printed].
  destruct (Z.ltb_spec cur level) as [Hlt|Hge].
  - assert ((level <=? cur) = false) as -> by (apply Z.leb_gt; lia).
    rewrite app_nil_r. reflexivity.
  - assert ((level <=? cur) = true) as -> by (apply Z.leb_le; lia).
    reflexivity.
Qed.

(** X25.  [StringToLevel] depends on its argument through [strings.ToUpper]
    only.  When the upper-cased argument is the name of a level, that level
    is returned and nothing is printed; otherwise the answer is [TRACE] and
    the complaint goes to [Errorf] with the upper-cased argument.  The
    answer is always one of the five levels. *)
Theorem Logger_StringToLevel_reads_the_names (Arg : Type) (arg_of_string : string -> Arg)
    (Sprintf : string -> list Arg -> string) (ToUpper : string -> string)
    (caller : string) (s : string) (st : Logger.State) :
  let result := Logger.StringToLevel Arg arg_of_string Sprintf ToUpper caller s st in
  (forall level, 0 <= level <= 4 -> ToUpper s = Logger.level_name level ->
     result = (level, st))
  /\ ((forall level, 0 <= level <= 4 -> ToUpper s <> Logger.level_name level) ->
      result = (Logger.TRACE,
                Logger.Errorf Arg Sprintf caller Logger.unrecognized_format
                  [arg_of_string (ToUpper s)] st))
  /\ 0 <= fst result <= 4
  /\ (forall s', ToUpper s' = ToUpper s ->
        Logger.StringToLevel Arg arg_of_string Sprintf ToUpper caller s' st = result).
Proof.
  intros result. unfold result, Logger.StringToLevel. split; [|split; [|split]].
  - intros level Hlevel Hname.
    assert (level = 0 \/ level = 1 \/ level = 2 \/ level = 3 \/ level = 4) as Hcases by lia.
    destruct Hcases as [->|[->|[->|[->| ->]]]]; rewrite Hname; reflexivity.
  - intros Hnone.
    assert (H0 := Hnone 0 ltac:(lia)). assert (H1 := Hnone 1 ltac:(lia)).
    assert (H2 := Hnone 2 ltac:(lia)). assert (H3 := Hnone 3 ltac:(lia)).
    assert (H4 := Hnone 4 ltac:(lia)).
    apply String.eqb_neq in H0, H1, H2, H3, H4.
    change (Logger.level_name 0) with "FATAL"%string in H0.
    change (Logger.level_name 1) with "ERROR"%string in H1.
    change (Logger.level_name 2) with "WARN"%string in H2.
    change (Logger.level_name 3) with "INFO"%string in H3.
    change (Logger.level_name 4) with "TRACE"%string in H4.
    rewrite H0, H1, H2, H3, H4. reflexivity.
  - repeat (destruct (String.eqb _ _)); cbn [fst];
      unfold Logger.FATAL, Logger.ERROR, Logger.WARN, Logger.INFO, Logger.TRACE; lia.
  - intros s' ->. reflexivity.
Qed.

Lemma lastDot_loop_no_dot (s : string) :
  Contains s "." = false ->
  forall i lastDot, Logger.lastDot_loop i lastDot s = lastDot.
Proof.
  induction s as [|c s IH]; intros H i lastDot; [reflexivity|].
  rewrite Contains_cons in H. apply orb_false_iff in H as [Hc Hs].
  cbn [Logger.lastDot_loop].
  assert (Ascii.eqb c "." = false) as ->.
  { cbn [HasPrefix] in Hc. rewrite Ascii.eqb_sym.
    destruct (Ascii.eqb "." c); [discriminate | reflexivity]. }
  apply IH. exact Hs.
Qed.

Lemma lastDot_loop_last (a b : string) :
  Contains b "." = false ->
  forall i lastDot,
    Logger.lastDot_loop i lastDot (a +:+ "." +:+ b) = (i + String.length a)%nat.
Proof.
  intros Hb. induction a as [|c a IH]; intros i lastDot.
  - change (Logger.lastDot_loop (S i) i b = (i + 0)%nat).
    rewrite (lastDot_loop_no_dot b Hb). lia.
  - change (Logger.lastDot_loop (S i) (if Ascii.eqb c "." then i else lastDot)
              (a +:+ "." +:+ b) = (i + S (String.length a))%nat).
    rewrite IH. lia.
Qed.

Lemma string_drop_append (a b : string) : string_drop (String.length a) (a +:+ b) = b.
Proof. induction a as [|c a IH]; [reflexivity | exact IH]. Qed.

(** X26.  [funcName] answers with what follows the last dot of the name,
    and ["()"]: for a name that ends in a dot and a last part without dots,
    after a first part that is not empty, the answer is the last part and
    ["()"].  A name without a dot, or whose only dot is its first character,
    is handed to [filepath.Base]. *)
Theorem Logger_funcName_takes_the_last_part (Base : string -> string) (a b : string) :
  Contains b "." = false ->
  (a <> ""%string -> Logger.funcName Base (a +:+ "." +:+ b) = b +:+ "()")
  /\ Logger.funcName Base b = Base b
  /\ Logger.funcName Base ("." +:+ b) = Base ("." +:+ b).
Proof.
  intros Hb. unfold Logger.funcName. split; [|split].
  - intros Ha. rewrite (lastDot_loop_last a b Hb). cbn [Nat.add].
    destruct a as [|c a]; [congruence|]. cbn [String.length Nat.eqb].
    f_equal.
    replace (S (String.length a) + 1)%nat with (String.length (String c a +:+ ".")).
    + rewrite <- string_app_assoc. apply string_drop_append.
    + rewrite string_length_app. reflexivity.
  - rewrite (lastDot_loop_no_dot b Hb). reflexivity.
  - rewrite (lastDot_loop_last "" b Hb). reflexivity.
Qed.

(** * Further instances *)

Lemma Write_replaces_the_range_witness :
  exists content',
    Write env_down 1%nat [x58] 1 (world_of [root_item; abc_file]) =
    Returns ((wrap32 (Z.of_nat (length [x58])), OK),
             mkWorld (<[1%nat := stored content' (Z.of_nat (slice_len content')) abc_file]>
                        (items (world_of [root_item; abc_file])))
                     (calls (world_of [root_item; abc_file])))
    /\ visible content' =
       take (Z.to_nat 1) [x41; x42; x43] ++ [x58]
       ++ drop (Z.to_nat 1 + length [x58]) [x41; x42; x43]
    /\ slice_len content' = Nat.max 3 (Z.to_nat 1 + length [x58]).
Proof.
  apply (Write_replaces_the_range env_down (world_of [root_item; abc_file]) 1%nat abc_file
           under_root (mkSlice [x41; x42; x43] []) [x58] 1);
    try reflexivity; try (cbn; lia).
Defined.

Lemma Write_out_of_range_witness :
  Write env_down 1%nat [x58] 4 (world_of [root_item; abc_file]) = Panics.
Proof.
  apply (Write_out_of_range_panics env_down (world_of [root_item; abc_file]) 1%nat abc_file
           (mkSlice [x41; x42; x43] []) [x58] 4); try reflexivity; try (right; cbn; lia).
Defined.

Lemma Write_leaves_size_in_step_witness :
  (1, OK) = (wrap32 (Z.of_nat (length [x58])), OK)
  /\ calls (world_of [root_item; stored (mkSlice [x41; x58; x43] []) 3 abc_file])
     = calls (world_of [root_item; abc_file])
  /\ (forall i, i <> 1%nat ->
        items (world_of [root_item; stored (mkSlice [x41; x58; x43] []) 3 abc_file]) !! i
        = items (world_of [root_item; abc_file]) !! i)
  /\ exists d' content',
       items (world_of [root_item; stored (mkSlice [x41; x58; x43] []) 3 abc_file]) !! 1%nat
       = Some d'
       /\ data d' = Some content'
       /\ SizeInternal d' = Z.of_nat (slice_len content')
       /\ hasChanges d' = true.
Proof.
  apply (Write_leaves_size_in_step env_down (world_of [root_item; abc_file])
           (world_of [root_item; stored (mkSlice [x41; x58; x43] []) 3 abc_file])
           1%nat abc_file [x58] 1 (1, OK)); reflexivity.
Defined.

Lemma Read_returns_the_range_witness :
  Read abc_file [x00; x00; x00; x00] 1 = Returns ([x42; x43], OK).
Proof.
  apply (Read_returns_the_range abc_file under_root (mkSlice [x41; x42; x43] [])
           [x00; x00; x00; x00] 1); try reflexivity; try (cbn; lia).
Defined.

Lemma Read_out_of_range_witness : Read abc_file [x00] (-1) = Panics.
Proof.
  apply (Read_out_of_range_panics abc_file (mkSlice [x41; x42; x43] []) [x00] (-1));
    [reflexivity | left; lia].
Defined.

Lemma Truncate_then_regrow_witness :
  exists content',
    (Truncate 1%nat 1 ;;; Truncate 1%nat 3) (world_of [root_item; abc_file]) =
    Returns (OK, mkWorld (<[1%nat := stored content' 3 abc_file]>
                            (items (world_of [root_item; abc_file])))
                         (calls (world_of [root_item; abc_file])))
    /\ visible content' = take (Z.to_nat 3) [x41; x42; x43]
    /\ Z.of_nat (slice_len content') = 3.
Proof.
  apply (Truncate_then_regrow_restores (world_of [root_item; abc_file]) 1%nat abc_file
           under_root (mkSlice [x41; x42; x43] []) 1 3); try reflexivity; try (cbn; lia).
Defined.

Lemma Truncate_beyond_capacity_witness :
  Truncate 1%nat 4 (world_of [root_item; abc_file]) = Panics.
Proof.
  apply (Truncate_beyond_capacity_panics (world_of [root_item; abc_file]) 1%nat abc_file
           (mkSlice [x41; x42; x43] []) 4); try reflexivity; try (cbn; lia).
Defined.

Lemma Chmod_witness :
  Chmod 1%nat 384 (world_of [root_item; report_item])
  = Returns (OK, mkWorld (<[1%nat := set_mode (Z.lor S_IFREG 384) report_item]>
                            (items (world_of [root_item; report_item])))
                         (calls (world_of [root_item; report_item])))
  /\ Mode (set_mode (Z.lor S_IFREG 384) report_item) = Z.lor S_IFREG 384
  /\ IsDir (set_mode (Z.lor S_IFREG 384) report_item)
     = IsDir report_item || (0 <? Z.land 384 S_IFDIR).
Proof.
  apply (Chmod_sets_the_mode_word (world_of [root_item; report_item]) 1%nat report_item
           under_root 384); try reflexivity; try lia.
Defined.

(** A date one second before 1970. *)
Lemma Utimens_then_GetAttr_witness :
  Utimens 1%nat (Some 5) (Some (-1)) (world_of [root_item; abc_file])
  = Returns (OK, world_of [root_item; set_ModTimeInternal (Some (-1)) abc_file])
  /\ GetAttr 1000 1000 (set_ModTimeInternal (Some (-1)) abc_file)
     = Returns (mkAttr 3 1 18446744073709551615 18446744073709551615
                       18446744073709551615 perm_0644 1000 1000, OK).
Proof.
  destruct (Utimens_then_GetAttr (world_of [root_item; abc_file]) 1%nat abc_file under_root
              (Some 5) (Some (-1)) 1000 1000 eq_refl eq_refl) as (H1 & H2 & _).
  split; [exact H1 | exact H2].
Defined.

Lemma Flush_twice_witness :
  (Flush 1 1%nat ;;; Flush 1 1%nat) (world_of [root_item; set_hasChanges true abc_file])
  = Returns (OK, mkWorld [root_item; abc_file] [Upload_go 1%nat token abc_file]).
Proof.
  apply (Flush_twice_uploads_once 1 (world_of [root_item; set_hasChanges true abc_file])
           1%nat 0%nat (set_hasChanges true abc_file) root_item under_root token);
    reflexivity.
Defined.


Lemma getRoot_returns_a_root_witness :
  (exists root pp,
     [root_item; abc_file] !! 0%nat = Some root /\ Parent root = Some pp
     /\ ParentPath pp = ""%string)
  /\ forall fuel', (1 <= fuel')%nat ->
       getRoot fuel' [root_item; abc_file] abc_file = Returns 0%nat.
Proof.
  apply (getRoot_returns_a_root 1 [root_item; abc_file] abc_file 0%nat). reflexivity.
Defined.

Lemma getRoot_without_root_witness : getRoot 100 [lost_item] lost_item = OutOfFuel.
Proof.
  apply (getRoot_without_root_never_returns [lost_item]) with (i := 0%nat);
    [|reflexivity].
  intros i x Hx. destruct i as [|i]; [|discriminate].
  injection Hx as <-.
  exists (mkParent "L1" "/lost" (Some 0%nat)), 0%nat.
  repeat split; [discriminate | exists lost_item; reflexivity].
Defined.

Lemma ID_answers_from_the_item_witness :
  ID env_down 1 1%nat token (world_of [root_item; listed_file])
  = Returns (("F1"%string, None), world_of [root_item; listed_file])
  /\ (ID env_down 1 1%nat token ;;; ID env_down 1 1%nat token)
       (world_of [root_item; listed_file])
     = Returns (("F1"%string, None), world_of [root_item; listed_file]).
Proof.
  apply (ID_answers_from_the_item env_down 0 (world_of [root_item; listed_file]) 1%nat
           listed_file (mkParent "ROOT" "/drive/root:" (Some 0%nat)) token);
    try reflexivity; try (right; left; discriminate).
Defined.

Lemma ID_upload_witness :
  ID env_upload 2 1%nat token (world_of [root_item; report_item])
  = Returns (("NEW1"%string, None),
             mkWorld [root_item; set_IDInternal "NEW1" report_item]
                     [Put_call "/me/drive/items/ROOT:/report.txt:/content" token []]).
Proof.
  refine (proj1 (ID_upload_stores_the_identifier env_upload 0
                   (world_of [root_item; report_item]) 1%nat 0%nat
                   report_item report_item root_item
                   (set_IDInternal "NEW1"
                      (new_item 0 "report.txt" perm_0644 0%nat root_item
                                (mkParent "" "" None)))
                   under_root (mkParent "" "" None) token nil_slice
                   _ _ _ _ _ _ _ _ _ _ _)); try reflexivity; try discriminate.
Defined.

Lemma ID_other_upload_error_witness :
  ID env_down 1 1%nat token (world_of [root_item; report_item])
  = Returns ((""%string, Some "503"%string),
             mkWorld [root_item; report_item]
                     [Put_call "/me/drive/items/ROOT:/report.txt:/content" token []]).
Proof.
  apply (ID_other_upload_error_is_returned env_down 0 (world_of [root_item; report_item])
           1%nat report_item under_root token "503"); try reflexivity; try discriminate.
Defined.

Lemma FetchContent_witness :
  (forall err,
     remote_Get env_download (content_path "F1") token
       (record_call (Get_call (content_path "F1") token) (world_of [root_item; listed_file]))
     = inl err ->
     FetchContent env_download 1 1%nat token (world_of [root_item; listed_file])
     = Returns (Some err, mkWorld [root_item; listed_file]
                                  [Get_call (content_path "F1") token]))
  /\ (forall body d1,
        remote_Get env_download (content_path "F1") token
          (record_call (Get_call (content_path "F1") token)
                       (world_of [root_item; listed_file]))
        = inr body ->
        [root_item; listed_file] !! 1%nat = Some d1 ->
        FetchContent env_download 1 1%nat token (world_of [root_item; listed_file])
        = Returns (None, mkWorld (<[1%nat := set_data (Some body) d1]>
                                    [root_item; listed_file])
                                 [Get_call (content_path "F1") token])).
Proof.
  apply (FetchContent_replaces_the_buffer env_download 0 (world_of [root_item; listed_file])
           1%nat listed_file (mkParent "ROOT" "/drive/root:" (Some 0%nat)) token);
    try reflexivity; try discriminate.
Defined.

Lemma NewDriveItem_witness :
  NewDriveItem env_down 1 "new.txt" perm_0644 (Some 0%nat) (world_of [root_item])
  = Returns (new_item 0 "new.txt" perm_0644 0%nat root_item (mkParent "" "" None),
             world_of [root_item])
  /\ NewDriveItem env_down 1 "new.txt" perm_0644 None (world_of [root_item]) = Panics
  /\ forall w' h' a,
       items w' !! h' = Some (new_item 0 "new.txt" perm_0644 0%nat root_item
                                       (mkParent "" "" None)) ->
       GetChildren env_down h' a w' = Returns ((Some ∅, None), w').
Proof.
  apply (NewDriveItem_is_local env_down 0 (world_of [root_item]) "new.txt" perm_0644 0%nat
           root_item (mkParent "" "" None)); reflexivity.
Defined.

Lemma setParent_witness :
  setParent env_down 1 1%nat (Some 0%nat) (world_of [root_item; listed_file])
  = Returns (tt, world_of [root_item;
                           set_Parent (Some (mkParent "ROOT" "/" (Some 0%nat))) listed_file])
  /\ Path (set_Parent (Some (mkParent "ROOT" "/" (Some 0%nat))) listed_file)
     = Returns "/notes.txt"%string.
Proof.
  destruct (setParent_moves_the_path env_down 0 (world_of [root_item; listed_file])
              1%nat 0%nat listed_file root_item (mkParent "" "" None)
              eq_refl eq_refl ltac:(discriminate) eq_refl) as (H1 & H2 & _).
  split; [exact H1 | exact (H2 eq_refl eq_refl)].
Defined.

Lemma Path_below_the_marker_witness :
  Path listed_file = Returns ("" +:+ "/" +:+ Name listed_file).
Proof.
  apply (Path_below_the_marker listed_file (mkParent "ROOT" "/drive/root:" (Some 0%nat)) "");
    reflexivity.
Defined.

Lemma GetChildren_places_the_children_witness :
  exists m w2,
    GetChildren env_listing 0%nat token (world_of [root_item]) = Returns ((Some m, None), w2)
    /\ length (items w2) = (1 + length sample_children)%nat
    /\ (forall i, (i < 1)%nat -> i <> 0%nat -> items w2 !! i = [root_item] !! i)
    /\ (forall k c, sample_children !! k = Some c ->
          items w2 !! (1 + k)%nat = Some (adopt 0%nat c))
    /\ (forall key j, m !! key = Some j ->
          exists k c, j = (1 + k)%nat /\ sample_children !! k = Some c
                      /\ ToLower env_listing (Name c) = key)
    /\ (forall k c, sample_children !! k = Some c ->
          exists k' c', (k <= k')%nat /\ sample_children !! k' = Some c'
                        /\ ToLower env_listing (Name c') = ToLower env_listing (Name c)
                        /\ m !! ToLower env_listing (Name c) = Some (1 + k')%nat).
Proof.
  apply (GetChildren_places_the_children env_listing (world_of [root_item]) 0%nat token
           root_item root_item (mkParent "" "" None) nil_slice sample_children);
    try reflexivity.
  repeat constructor; eexists; reflexivity.
Defined.

Lemma Logger_funcName_witness :
  ("github.com/jstaf/onedriver/logger"%string <> ""%string ->
   Logger.funcName (fun s => s) ("github.com/jstaf/onedriver/logger" +:+ "." +:+ "Caller")
   = ("Caller" +:+ "()")%string)
  /\ Logger.funcName (fun s => s) "Caller" = "Caller"%string
  /\ Logger.funcName (fun s => s) ("." +:+ "Caller") = ("." +:+ "Caller")%string.
Proof.
  apply (Logger_funcName_takes_the_last_part (fun s => s)
           "github.com/jstaf/onedriver/logger" "Caller").
  reflexivity.
Defined.

(** [StringToLevel] on the upper case of ASCII: names in any case, and a
    text that is no name. *)
Example Logger_StringToLevel_info :
  Logger.StringToLevel string (fun s => s) (fun f _ => f) Logger.ToUpper_ascii "main"
    "Info" Logger.initial
  = (Logger.INFO, Logger.initial).
Proof. reflexivity. Qed.

Example Logger_StringToLevel_unknown :
  fst (Logger.StringToLevel string (fun s => s) (fun f _ => f) Logger.ToUpper_ascii "main"
         "verbose" Logger.initial) = Logger.TRACE
  /\ length (Logger.printed
               (snd (Logger.StringToLevel string (fun s => s) (fun f _ => f)
                       Logger.ToUpper_ascii "main" "verbose" Logger.initial))) = 1%nat.
Proof. split; reflexivity. Qed.
